(** * CoreDNS server core: zone dispatch and the proxy client's wire codec

    A shallow embedding of [dnsserver.Server.ServeDNS] (zone dispatch) and of
    the proxy client ([Client.ServeDNS], [Client.Exchange], [ReadMsg],
    [WriteMsg], [Read], [Write], the connection pools), followed by the
    properties of the specification that concern them.

    Go strings and byte slices are byte sequences: names are [string]s whose
    bytes are read as [list ascii], wire data is [list Byte.byte].  Unsigned
    16-bit header fields are [Z].  Panics are an explicit outcome, and the
    two places where the Go code can fail to return (the label walk, the
    recursive [Read]) carry a fuel argument. *)

From stdpp Require Import gmap strings list.
From Stdlib Require Import ZArith NArith Lia.
From Stdlib.Strings Require Import Ascii String Byte.

Local Open Scope Z_scope.

(** ** DNS messages, as far as the dispatcher and the client inspect them *)

Module Dns.

(** Constants of the DNS library used by the sources. *)
Definition RcodeFormatError : Z := 1.
Definition RcodeServerFailure : Z := 2.
Definition RcodeNotImplemented : Z := 4.
Definition RcodeRefused : Z := 5.
Definition RcodeBadVers : Z := 16.
Definition TypeDS : Z := 43.
Definition MinMsgSize : Z := 512.
Definition MaxMsgSize : Z := 65535.

Record Question := mkQuestion {
  Name : string;
  Qtype : Z;
  Qclass : Z
}.

(** The OPT pseudo-record of EDNS0: advertised buffer size and version. *)
Record OPT := mkOPT {
  UDPSize : Z;
  Version : Z
}.

Record Msg := mkMsg {
  Id : Z;
  Response : bool;
  Truncated : bool;
  Compress : bool;
  Rcode : Z;
  Questions : list Question;
  IsEdns0 : option OPT
}.

Inductive error :=
| ErrShortRead
| ErrId
| ErrTruncated
| ErrConnEmpty
| ErrShortBuffer
| ErrEOF
| ErrMessageTooLarge
| ErrBadVers
| ErrOther (what : string).

(** Modelled from the spec: the loop of [dns.NextLabel], a function of the
    DNS library that is not part of the sources.  It returns the index of
    the start of the next label of [s] after [offset] and whether the end
    of the name was reached; it runs over [i = offset .. len(s)-2], and a
    backslash escapes the dot that follows it. *)
Fixpoint NextLabel_loop (rest : list ascii) (i : nat) (quote : bool) : nat * bool :=
  match rest with
  | [] => (S i, true)
  | c :: rest' =>
      match rest' with
      | [] => (S i, true)
      | _ :: _ =>
          if Ascii.eqb c "\"%char then NextLabel_loop rest' (S i) (negb quote)
          else if Ascii.eqb c "."%char then
                 if quote then NextLabel_loop rest' (S i) false
                 else (S i, false)
               else NextLabel_loop rest' (S i) false
      end
  end.

(** Modelled from the spec: [dns.NextLabel] belongs to the DNS library and
    is not part of the sources; the dispatcher "walks ... one label at a
    time", which is what the library function does. *)
Definition NextLabel (s : list ascii) (offset : nat) : nat * bool :=
  NextLabel_loop (drop offset s) offset false.

End Dns.

Export Dns.

(** ** The dispatcher: [dnsserver.Server.ServeDNS] *)

Module dnsserver.

(** A panic is an outcome of its own: the dispatcher recovers from it. *)
Inductive result (A : Type) :=
| Returned (a : A)
| Panicked.
Arguments Returned {A} a.
Arguments Panicked {A}.

(** The response sink: the transport the request came in on, the remote
    address, and the messages written to the client so far. *)
Record ResponseWriter := mkWriter {
  proto : string;
  RemoteAddr : string;
  sent : list Msg
}.

Definition WriteMsg (w : ResponseWriter) (m : Msg) : ResponseWriter :=
  {| proto := proto w; RemoteAddr := RemoteAddr w; sent := sent w ++ [m] |}.

(** The handler capability: process a request against a response sink and
    return a response code and an error, or panic.  The sink is returned
    in both cases: what a chain wrote before it panicked stays written. *)
Definition Handler : Type :=
  ResponseWriter -> Msg -> ResponseWriter * result (Z * option error).

Record Config := mkConfig {
  Host : string;
  Port : string
}.

Record zone := mkZone {
  config : Config;
  stack : Handler
}.

Record Server := mkServer {
  Addr : string;
  zones : gmap string zone
}.

(** The dispatcher's view of one request: the sink, and a ghost log of the
    registry keys whose chain was invoked (appended at the two call sites
    of [h.stack.ServeDNS]). *)
Record Dispatch := mkDispatch {
  writer : ResponseWriter;
  served : list string
}.

Definition RcodeNoClientWrite (rcode : Z) : bool :=
  if rcode =? RcodeServerFailure then true
  else if rcode =? RcodeRefused then true
  else if rcode =? RcodeFormatError then true
  else if rcode =? RcodeNotImplemented then true
  else false.

(** [answer.SetRcode(r, rcode)] of the DNS library: a reply to [r] carrying
    [rcode], with [r]'s first question; [state.SizeAndDo] copies the OPT
    record of the request when it has one. *)
Definition SetRcode (r : Msg) (rcode : Z) : Msg :=
  {| Id := Id r; Response := true; Truncated := false; Compress := false;
     Rcode := rcode; Questions := take 1 (Questions r); IsEdns0 := IsEdns0 r |}.

Definition DefaultErrorFunc (d : Dispatch) (r : Msg) (rcode : Z) : Dispatch :=
  let answer := SetRcode r rcode in
  {| writer := WriteMsg (writer d) answer; served := served d |}.

(** Modelled from the spec: [middleware.Edns0Version] is not part of the
    sources.  "Reject immediately ... if the query's extension-mechanism
    version is unsupported": a request whose OPT record has a version other
    than 0 yields a bad-version reply and an error; any other request
    yields neither. *)
Definition Edns0Version (r : Msg) : option Msg * option error :=
  match IsEdns0 r with
  | None => (None, None)
  | Some opt =>
      if Version opt =? 0 then (None, None)
      else (Some {| Id := Id r; Response := true; Truncated := false;
                    Compress := false; Rcode := RcodeBadVers;
                    Questions := []; IsEdns0 := Some (mkOPT (UDPSize opt) 0) |},
            Some ErrBadVers)
  end.

(** The byte [b[i]] after [if b[i] >= 'A' && b[i] <= 'Z' { b[i] |= 'a'-'A' }]. *)
Definition lower (c : ascii) : ascii :=
  let n := N_of_ascii c in
  if ((65 <=? n) && (n <=? 90))%N then ascii_of_N (N.lor n 32) else c.

(** The inner loop [for i := 0; i < l; i++]: copy [q[off+i]] into the
    scratch buffer [b] at [i] and normalise it.  [i] counts up, [n] is the
    number of iterations left. *)
Fixpoint fill (n i : nat) (b q : list ascii) (off : nat) : list ascii :=
  match n with
  | O => b
  | S n' =>
      match q !! (off + i)%nat with
      | Some c => fill n' (S i) (<[i := lower c]> b) q off
      | None => b
      end
  end.

(** One call of the zone's chain, and the dispatcher's own write for the
    response codes it does not trust the chain to have written. *)
Definition invoke (key : string) (h : zone) (d : Dispatch) (r : Msg)
  : Dispatch * result unit :=
  let '(w', res) := stack h (writer d) r in
  let d' := {| writer := w'; served := served d ++ [key] |} in
  match res with
  | Panicked => (d', Panicked)
  | Returned (rcode, _) =>
      if RcodeNoClientWrite rcode
      then (DefaultErrorFunc d' r rcode, Returned tt)
      else (d', Returned tt)
  end.

(** What follows the label loop: the root zone as a last resort, else
    REFUSED. *)
Definition lastResort (s : Server) (d : Dispatch) (r : Msg) : Dispatch * result unit :=
  match zones s !! "."%string with
  | Some h => invoke "." h d r
  | None => (DefaultErrorFunc d r RcodeRefused, Returned tt)
  end.

(** The outer [for] loop over the suffixes of [q].  [None] is running out
    of fuel. *)
Fixpoint walk (fuel : nat) (s : Server) (d : Dispatch) (r : Msg) (qtype : Z)
    (q b : list ascii) (off : nat) : option (Dispatch * result unit) :=
  match fuel with
  | O => None
  | S fuel' =>
      let l := List.length (drop off q) in
      let b' := fill l 0 b q off in
      let next :=
        let '(off', fin) := NextLabel q off in
        if fin then Some (lastResort s d r)
        else walk fuel' s d r qtype q b' off' in
      match zones s !! string_of_list_ascii (take l b') with
      | Some h =>
          if negb (qtype =? TypeDS) then Some (invoke (string_of_list_ascii (take l b')) h d r)
          else next
      | None => next
      end
  end.

(** The body of [ServeDNS], before the deferred [recover]. *)
Definition ServeDNS_body (s : Server) (w : ResponseWriter) (r : Msg)
  : option (Dispatch * result unit) :=
  let d := {| writer := w; served := [] |} in
  match Edns0Version r with
  | (m, Some _) =>
      match m with
      | Some m => Some ({| writer := WriteMsg w m; served := [] |}, Returned tt)
      | None => Some (d, Panicked)
      end
  | (_, None) =>
      match Questions r with
      | [] => Some (d, Panicked)
      | q0 :: _ =>
          let q := list_ascii_of_string (Name q0) in
          let b := replicate (List.length q) zero in
          walk (S (List.length q)) s d r (Qtype q0) q b 0
      end
  end.

(** [ServeDNS]: the body under the deferred function that recovers from a
    panic with [DefaultErrorFunc(w, r, dns.RcodeServerFailure)]. *)
Definition recovered (r : Msg) (x : Dispatch * result unit) : Dispatch * result unit :=
  match x with
  | (d, Panicked) => (DefaultErrorFunc d r RcodeServerFailure, Returned tt)
  | (d, Returned tt) => (d, Returned tt)
  end.

Definition ServeDNS (s : Server) (w : ResponseWriter) (r : Msg)
  : option (Dispatch * result unit) :=
  recovered r <$> ServeDNS_body s w r.

(** *** The walk, read off the code *)

(** The offsets the outer loop visits, starting at [off]. *)
Fixpoint labels (fuel : nat) (q : list ascii) (off : nat) : list nat :=
  match fuel with
  | O => []
  | S fuel' =>
      off :: (let '(off', fin) := NextLabel q off in
              if fin then [] else labels fuel' q off')
  end.

(** The registry key looked up at offset [off]: the suffix, lower-cased. *)
Definition candidate (q : list ascii) (off : nat) : string :=
  string_of_list_ascii (lower <$> drop off q).

(** The candidate names of a query name, from the full name toward the
    root. *)
Definition candidates (name : string) : list string :=
  let q := list_ascii_of_string name in
  candidate q <$> labels (S (List.length q)) q 0.

(** The routing property of the specification, for one server and one
    request: the chain of the first registered candidate is the one
    invoked, and no other registered candidate is longer. *)
Definition first_match_routing (s : Server) (w : ResponseWriter) (r : Msg) : Prop :=
  forall q0 rest pre key post h,
    Questions r = q0 :: rest ->
    candidates (Name q0) = pre ++ key :: post ->
    (forall k, k ∈ pre -> zones s !! k = None) ->
    zones s !! key = Some h ->
    ServeDNS s w r = Some (recovered r (invoke key h (mkDispatch w []) r))
    /\ served (fst (recovered r (invoke key h (mkDispatch w []) r))) = [key]
    /\ (forall k, k ∈ pre ++ key :: post -> is_Some (zones s !! k) ->
        (String.length k <= String.length key)%nat).

(** The specification's sentence on unmatched names, for one server and
    one request: no registered candidate and no root entry give a REFUSED
    response and no chain invocation. *)
Definition unmatched_is_refused (s : Server) (w : ResponseWriter) (r : Msg) : Prop :=
  forall q0 rest,
    Questions r = q0 :: rest ->
    (forall k, k ∈ candidates (Name q0) -> zones s !! k = None) ->
    zones s !! "."%string = None ->
    ServeDNS s w r
    = Some ({| writer := WriteMsg w (SetRcode r RcodeRefused); served := [] |}, Returned tt).

(** A name, lower-cased byte by byte. *)
Definition lowered (name : string) : string :=
  string_of_list_ascii (lower <$> list_ascii_of_string name).

(** A label: a string without dots and backslashes. *)
Definition plain (label : string) : Prop :=
  forall x, x ∈ list_ascii_of_string label ->
            Ascii.eqb x "." = false /\ Ascii.eqb x "\" = false.

(** *** Construction: [dnsserver.New] *)

(** [net.JoinHostPort]: a host with a colon or a percent sign is put in
    brackets. *)
Fixpoint has_byte (c : ascii) (s : string) : bool :=
  match s with
  | EmptyString => false
  | String c' s' => if Ascii.eqb c c' then true else has_byte c s'
  end.

Definition JoinHostPort (host port : string) : string :=
  if has_byte ":" host || has_byte "%" host
  then ("[" ++ host ++ "]:" ++ port)%string
  else (host ++ ":" ++ port)%string.

Definition Address (c : Config) : string := JoinHostPort (Host c) (Port c).

(** The names a zone with the chaos middleware is registered under as
    well. *)
Definition chaosNames : list string :=
  ["authors.bind."; "version.bind."; "version.server."; "hostname.bind."; "id.server."]%string.

Section Construction.

(** [zone.buildStack] and the test whether one of the zone's middleware is
    [chaos.Chaos] read [Config.Middleware], whose element type is declared
    outside the sources. *)
Variable buildStack : Config -> Handler.
Variable hasChaos : Config -> bool.

(** The zone of a configuration: [z := zone{config: conf}; z.buildStack()]. *)
Definition zoneFor (conf : Config) : zone :=
  {| config := conf; stack := buildStack conf |}.

(** One round of the loop once the host is known to be free: the zone is
    stored under the host and, if it has the chaos middleware, under the
    chaos names as well. *)
Definition register (conf : Config) (zs : gmap string zone) : gmap string zone :=
  let z := zoneFor conf in
  let zs1 := <[Host conf := z]> zs in
  if hasChaos conf
  then foldl (fun m ch => <[ch := z]> m) zs1 chaosNames
  else zs1.

(** The loop [for _, conf := range configs] of [New], over the registry
    built so far. *)
Fixpoint New_loop (addr : string) (configs : list Config) (zs : gmap string zone)
  : error + gmap string zone :=
  match configs with
  | [] => inr zs
  | conf :: rest =>
      match zs !! Host conf with
      | Some _ =>
          inl (ErrOther ("cannot serve " ++ Address conf
                         ++ " - host already defined for address " ++ addr))
      | None => New_loop addr rest (register conf zs)
      end
  end.

Definition New (addr : string) (configs : list Config) : error + Server :=
  match New_loop addr configs ∅ with
  | inl e => inl e
  | inr zs => inr {| Addr := addr; zones := zs |}
  end.

End Construction.

End dnsserver.

(** ** The proxy client and its wire codec *)

Module proxy.

Abbreviation byte := Byte.byte.

(** The dynamic type of a [net.Conn], as the type switches of the codec
    distinguish it. *)
Inductive ConnKind := TCPConn | TLSConn | UDPConn.

(** What the peer hands to one call of the connection's own [Read]. *)
Inductive ReadEv :=
| Data (bs : list byte)
| Fail (e : error).

(** A connection: its type, the peer's address, what the peer will deliver
    (one entry per read call for a stream, one packet per entry for a
    datagram socket), what was written (one entry per write call), and the
    error a write meets, if any. *)
Record Conn := mkConn {
  kind : ConnKind;
  remote : string;
  incoming : list ReadEv;
  outgoing : list (list byte);
  writeErr : option error
}.

Definition with_incoming (co : Conn) (evs : list ReadEv) : Conn :=
  {| kind := kind co; remote := remote co; incoming := evs;
     outgoing := outgoing co; writeErr := writeErr co |}.

(** The connection's own [Read(p)] (the method of [net.Conn] / [io.Reader]):
    at most [len(p)] bytes are copied to the front of [p].  On a stream the
    bytes that did not fit stay queued; on a datagram socket the rest of
    the packet is dropped.  An exhausted script is end of file. *)
Definition conn_Read (co : Conn) (p : list byte) : Conn * list byte * nat * option error :=
  match incoming co with
  | [] => (co, p, O, Some ErrEOF)
  | Fail e :: rest => (with_incoming co rest, p, O, Some e)
  | Data bs :: rest =>
      let n := Nat.min (List.length bs) (List.length p) in
      let rest' :=
        match kind co with
        | UDPConn => rest
        | _ => if (List.length p <? List.length bs)%nat then Data (drop n bs) :: rest else rest
        end in
      (with_incoming co rest', take n bs ++ drop n p, n, None)
  end.

(** The connection's own [Write(p)]. *)
Definition conn_Write (co : Conn) (p : list byte) : Conn * nat * option error :=
  match writeErr co with
  | Some e => (co, O, Some e)
  | None =>
      ({| kind := kind co; remote := remote co; incoming := incoming co;
          outgoing := outgoing co ++ [p]; writeErr := None |},
       List.length p, None)
  end.

Definition byteZ (b : byte) : Z := Z.of_N (Byte.to_N b).

Definition Zbyte (z : Z) : byte :=
  match Byte.of_N (Z.to_N (z mod 256)) with
  | Some b => b
  | None => x00
  end.

(** [binary.BigEndian.Uint16] and [binary.BigEndian.PutUint16]. *)
Definition Uint16 (p : list byte) : Z :=
  match p with
  | b0 :: b1 :: _ => Z.lor (Z.shiftl (byteZ b0) 8) (byteZ b1)
  | _ => 0
  end.

Definition PutUint16 (v : Z) : list byte :=
  [Zbyte (Z.shiftr v 8); Zbyte v].

(** [tcpMsgLen]: one read into a two-byte buffer. *)
Definition tcpMsgLen (t : Conn) : Conn * nat * option error :=
  let '(t', p, n, err) := conn_Read t [x00; x00] in
  match err with
  | Some e => (t', O, Some e)
  | None =>
      if negb (n =? 2)%nat then (t', O, Some ErrShortRead)
      else
        let l := Uint16 p in
        if l =? 0 then (t', O, Some ErrShortRead)
        else (t', Z.to_nat l, None)
  end.

(** The loop [for n < len(p)] of [tcpRead]; [None] is running out of fuel. *)
Fixpoint tcpRead_loop (fuel : nat) (t : Conn) (p : list byte) (n : nat)
  : option (Conn * list byte * nat * option error) :=
  if (n <? List.length p)%nat then
    match fuel with
    | O => None
    | S fuel' =>
        let '(t', tl, j, err) := conn_Read t (drop n p) in
        let p' := take n p ++ tl in
        match err with
        | Some e => Some (t', p', n, Some e)
        | None => tcpRead_loop fuel' t' p' (n + j)
        end
    end
  else Some (t, p, n, None).

Definition tcpRead (fuel : nat) (t : Conn) (p : list byte)
  : option (Conn * list byte * nat * option error) :=
  let '(t', p', n, err) := conn_Read t p in
  match err with
  | Some e => Some (t', p', n, Some e)
  | None => tcpRead_loop fuel t' p' n
  end.

(** [Read(co, p)].  The last branch is the call [Read(co, p)] that the
    source makes for a connection that is neither TCP nor TLS: each such
    call costs one unit of fuel. *)
Fixpoint Read (fuel : nat) (co : option Conn) (p : list byte)
  : option (option Conn * list byte * nat * option error) :=
  match fuel with
  | O => None
  | S fuel' =>
      match co with
      | None => Some (None, p, O, Some ErrConnEmpty)
      | Some c =>
          if (List.length p <? 2)%nat then Some (co, p, O, Some ErrShortBuffer)
          else
            match kind c with
            | TCPConn | TLSConn =>
                let '(c1, l, err) := tcpMsgLen c in
                match err with
                | Some e => Some (Some c1, p, O, Some e)
                | None =>
                    if (List.length p <? l)%nat then Some (Some c1, p, l, Some ErrShortBuffer)
                    else
                      match tcpRead fuel' c1 (take l p) with
                      | None => None
                      | Some (c2, p', n, err) => Some (Some c2, p' ++ drop l p, n, err)
                      end
                end
            | UDPConn =>
                match Read fuel' co p with
                | None => None
                | Some (co', p', n, err) => Some (co', p', n, err)
                end
            end
      end
  end.

(** [Write(co, p)]: the framed write. *)
Definition Write (co : Conn) (p : list byte) : Conn * nat * option error :=
  match kind co with
  | TCPConn | TLSConn =>
      let lp := Z.of_nat (List.length p) in
      if lp <? 2 then (co, O, Some ErrShortBuffer)
      else if lp >? MaxMsgSize then (co, O, Some ErrMessageTooLarge)
      else conn_Write co (PutUint16 (lp mod 65536) ++ p)
  | UDPConn => conn_Write co p
  end.

(** The receive buffer of the datagram branch of [readMsgHeader]. *)
Definition udpBuffer (udpsize : Z) : list byte :=
  if udpsize >? MinMsgSize then replicate (Z.to_nat udpsize) x00
  else replicate (Z.to_nat MinMsgSize) x00.

(** [readMsgHeader(co, nil, udpsize)]: the callers in the sources pass no
    header to fill.  The byte slice of a failed read is empty.  In the
    stream branch [l, err := tcpMsgLen(r)] declares an [err] of the case
    clause, and [n, err = tcpRead(r, p)] assigns to that one: the test
    [err != nil] after the switch reads the function's own [err], which the
    stream branch never sets.  The datagram branch assigns to the
    function's [err]. *)
Definition readMsgHeader (fuel : nat) (co : Conn) (udpsize : Z)
  : option (Conn * list byte * option error) :=
  let finish (c : Conn) (p : list byte) (n : nat) (err : option error) :=
    match err with
    | Some e => (c, [], Some e)
    | None => if (n <? 12)%nat then (c, [], Some ErrShortRead) else (c, take n p, None)
    end in
  match kind co with
  | TCPConn | TLSConn =>
      let '(r1, l, err) := tcpMsgLen co in
      match err with
      | Some e => Some (r1, [], Some e)
      | None =>
          match tcpRead fuel r1 (replicate l x00) with
          | None => None
          | Some (r2, p, n, _) => Some (finish r2 p n None)
          end
      end
  | UDPConn =>
      match Read fuel (Some co) (udpBuffer udpsize) with
      | None => None
      | Some (co', p, n, err) => Some (finish (default co co') p n err)
      end
  end.

(** A bounded set of connections to one address.  The pool library is not
    part of the sources; what the client needs of it is that [Get] hands
    out a connection made by the pool's dialer. *)
(** The remote end as a dial meets it: whether the dial fails, what the
    peer will send on the connection, and whether writes to it fail. *)
Record Peer := mkPeer {
  dialErr : option error;
  sends : list ReadEv;
  refuses : option error
}.

Record Pool := mkPool {
  initialCap : nat;
  maxCap : nat;
  factory : Peer -> option Conn * option error
}.

(** [dialTimeout(network, address, timeout)]: the function that calls
    [net.DialTimeout(network, address, timeout)].  A failed dial gives no
    connection and the error; otherwise the connection type follows the
    network. *)
Definition dialTimeout (network address : string) (timeout : Z)
  : Peer -> option Conn * option error :=
  fun peer =>
    match dialErr peer with
    | Some e => (None, Some e)
    | None =>
        (Some {| kind := if String.eqb network "tcp" then TCPConn else UDPConn;
                 remote := address; incoming := sends peer; outgoing := [];
                 writeErr := refuses peer |}, None)
    end.

(** Declared outside the sources; time plays no part in this model. *)
Definition defaultTimeout : Z := 5000000000.

Definition NewUDPPool (address : string) : Pool :=
  mkPool 2 10 (dialTimeout "udp" address defaultTimeout).

Definition NewTCPPool (address : string) : Pool :=
  mkPool 1 5 (dialTimeout "udp" address defaultTimeout).

Definition Get (p : Pool) (peer : Peer) : option Conn * option error := factory p peer.

Record UpstreamHost := mkUpstream {
  HostName : string;
  TCPPool : Pool;
  UDPPool : Pool
}.

(** Modelled from the spec: the dedup group ([singleflight.Group]) is not
    part of the sources.  "If an identical key is already in flight, the
    caller waits on the existing exchange's result instead of issuing a new
    one; otherwise this caller becomes the sole executor": the group maps
    each key in flight to the result its exchange delivers. *)
Definition Group : Type := gmap string (option Msg * option error).

Record Client := mkClient {
  Timeout : Z;
  group : Group
}.

(** The first statement of [Client.exchange]: "If EDNS0 is used use that
    for size." *)
Definition ednsSize (m : Msg) (udpsize : Z) : Z :=
  match IsEdns0 m with
  | Some opt => if UDPSize opt >=? MinMsgSize then UDPSize opt else udpsize
  | None => udpsize
  end.

(** The bytes a stream will deliver before its first failure. *)
Fixpoint stream (evs : list ReadEv) : list byte :=
  match evs with
  | Data bs :: rest => bs ++ stream rest
  | _ => []
  end.

(** The error a stream meets once the bytes of [stream] are used up: the
    first failure of the script, or end of file. *)
Fixpoint failure (evs : list ReadEv) : error :=
  match evs with
  | [] => ErrEOF
  | Fail e :: _ => e
  | Data _ :: rest => failure rest
  end.

(** A stream that carries the frame of [p] and then [tail], the first read
    delivering at least the two prefix bytes. *)
Definition carries (t : Conn) (p tail : list byte) : Prop :=
  kind t <> UDPConn
  /\ (exists c0 rest, incoming t = Data c0 :: rest /\ (2 <= List.length c0)%nat)
  /\ stream (incoming t) = PutUint16 (Z.of_nat (List.length p)) ++ p ++ tail
  /\ 1 <= Z.of_nat (List.length p) <= MaxMsgSize.

Section Codec.

(** The message codec and the mnemonic tables of the DNS library. *)
Variable Pack : Msg -> list byte * option error.
Variable Unpack : list byte -> Msg * option error.
Variable TypeToString : Z -> option string.
Variable ClassToString : Z -> option string.

(** [WriteMsg(co, m)]. *)
Definition WriteMsg (co : Conn) (m : Msg) : Conn * option error :=
  match Pack m with
  | (_, Some e) => (co, Some e)
  | (out, None) =>
      let '(co', _, err) := conn_Write co out in
      match err with
      | Some e => (co', Some e)
      | None => (co', None)
      end
  end.

(** [ReadMsg(co, udpsize)]. *)
Definition ReadMsg (fuel : nat) (co : Conn) (udpsize : Z)
  : option (Conn * option Msg * option error) :=
  match readMsgHeader fuel co udpsize with
  | None => None
  | Some (co', _, Some e) => Some (co', None, Some e)
  | Some (co', p, None) =>
      match Unpack p with
      | (m, Some ErrTruncated) => Some (co', Some m, Some ErrTruncated)
      | (_, Some e) => Some (co', None, Some e)
      | (m, None) => Some (co', Some m, None)
      end
  end.

(** [Client.exchange(m, co, udpsize)] on a connection. *)
Definition exchange (fuel : nat) (c : Client) (m : Msg) (co : Conn) (udpsize : Z)
  : option (Conn * option Msg * option error) :=
  match WriteMsg co m with
  | (co', Some e) => Some (co', None, Some e)
  | (co', None) =>
      match ReadMsg fuel co' (ednsSize m udpsize) with
      | None => None
      | Some (co2, Some r, None) =>
          if negb (Id r =? Id m) then Some (co2, Some r, Some ErrId)
          else Some (co2, Some r, None)
      | Some other => Some other
      end
  end.

(** [Client.exchange] as [Client.Exchange] calls it, with the connection
    that [Get] returned: without a connection the first statement that
    uses it, [co.SetWriteDeadline], panics. *)
Definition exchange_on (fuel : nat) (c : Client) (m : Msg) (co : option Conn) (udpsize : Z)
  : option (dnsserver.result (option Conn * option Msg * option error)) :=
  match co with
  | None => Some dnsserver.Panicked
  | Some conn =>
      match exchange fuel c m conn udpsize with
      | None => None
      | Some (conn', r, err) => Some (dnsserver.Returned (Some conn', r, err))
      end
  end.

(** The key under which [Client.Exchange] submits a query to the dedup
    group. *)
Definition dedupKey (q : Question) : string :=
  let t := match TypeToString (Qtype q) with Some t1 => t1 | None => "nop" end in
  let cl := match ClassToString (Qclass q) with Some cl1 => cl1 | None => "nop" end in
  (Name q ++ t ++ cl)%string.

(** [Client.Exchange(m, co)], without the round-trip time.  A message
    without a question panics at [m.Question[0]]. *)
Definition Exchange (fuel : nat) (c : Client) (m : Msg) (co : option Conn)
  : option (dnsserver.result (option Conn * option Msg * option error)) :=
  match Questions m with
  | [] => Some dnsserver.Panicked
  | q :: _ =>
      match group c !! dedupKey q with
      | Some (r, err) => Some (dnsserver.Returned (co, r, err))
      | None => exchange_on fuel c m co MinMsgSize
      end
  end.

(** Modelled from the spec: [request.Proto] is not part of the sources; it
    names "the inbound request's transport". *)
Definition Proto (w : dnsserver.ResponseWriter) : string := dnsserver.proto w.

(** The connection [Client.ServeDNS] borrows for a request, [co, _ =
    pool.Get()]: the error is dropped, a failed [Get] leaves no
    connection. *)
Definition borrow (w : dnsserver.ResponseWriter) (u : UpstreamHost) (peer : Peer)
  : option Conn :=
  if String.eqb (Proto w) "tcp" then fst (Get (TCPPool u) peer)
  else fst (Get (UDPPool u) peer).

(** The group after [reply.Compress = true; reply.Id = r.Id].  The message
    written to is the one [Exchange] returned.  When the exchange was
    joined, that is the message the group holds for every caller of the
    key, so the writes show in the group's entry; the message of an
    exchange this caller ran itself is in no entry. *)
Definition written (c : Client) (r : Msg) (reply : Msg) : Group :=
  match Questions r with
  | q :: _ =>
      match group c !! dedupKey q with
      | Some (Some _, err) => <[dedupKey q := (Some reply, err)]> (group c)
      | _ => group c
      end
  | [] => group c
  end.

(** [Client.ServeDNS(w, r, u)]: the group as the call leaves it, and what
    the call returns. *)
Definition ServeDNS (fuel : nat) (c : Client) (w : dnsserver.ResponseWriter) (r : Msg)
    (u : UpstreamHost) (peer : Peer)
  : option (dnsserver.result (Group * option Msg * option error)) :=
  let co := borrow w u peer in
  match Exchange fuel c r co with
  | None => None
  | Some dnsserver.Panicked => Some dnsserver.Panicked
  | Some (dnsserver.Returned (_, reply, err)) =>
      let err :=
        match reply with
        | Some rep => if Truncated rep then None else err
        | None => err
        end in
      match err with
      | Some e => Some (dnsserver.Returned (group c, None, Some e))
      | None =>
          match reply with
          | None => Some dnsserver.Panicked
          | Some rep =>
              let reply' :=
                {| Id := Id r; Response := Response rep;
                   Truncated := Truncated rep; Compress := true;
                   Rcode := Rcode rep; Questions := Questions rep;
                   IsEdns0 := IsEdns0 rep |} in
              Some (dnsserver.Returned (written c r reply', Some reply', None))
          end
      end
  end.

(** The second half of the specification's sentence on upstream replies,
    for one request: a decoded reply whose transaction ID differs from the
    request's makes [Client.ServeDNS] return an error and no reply. *)
Definition id_mismatch_is_error (fuel : nat) (c : Client) (w : dnsserver.ResponseWriter)
    (r : Msg) (u : UpstreamHost) (peer : Peer) : Prop :=
  forall q qs co co1 co2 rep err,
    Questions r = q :: qs ->
    group c !! dedupKey q = None ->
    borrow w u peer = Some co ->
    WriteMsg co r = (co1, None) ->
    ReadMsg fuel co1 (ednsSize r MinMsgSize) = Some (co2, Some rep, err) ->
    Id rep <> Id r ->
    exists e, ServeDNS fuel c w r u peer = Some (dnsserver.Returned (group c, None, Some e))
              /\ (err = None -> e = ErrId).

End Codec.

End proxy.

(** ** A codec for section-less messages

    The twelve-byte header of a DNS message, enough to run the client on
    concrete bytes: transaction ID, the QR and TC flags, the response code.
    As in the DNS library, unpacking a message whose TC flag is set reports
    [ErrTruncated] together with the message. *)

Module header.
Import proxy.

Definition Pack (m : Msg) : list byte * option error :=
  ([Zbyte (Z.shiftr (Id m) 8); Zbyte (Id m);
    Zbyte ((if Response m then 128 else 0) + (if Truncated m then 2 else 0));
    Zbyte (Z.land (Rcode m) 15)] ++ replicate 8 x00, None).

Definition Unpack (p : list byte) : Msg * option error :=
  match p with
  | b0 :: b1 :: b2 :: b3 :: _ =>
      let tc := Z.testbit (byteZ b2) 1 in
      ({| Id := Uint16 [b0; b1]; Response := Z.testbit (byteZ b2) 7;
          Truncated := tc; Compress := false; Rcode := Z.land (byteZ b3) 15;
          Questions := []; IsEdns0 := None |},
       if tc then Some ErrTruncated else None)
  | _ =>
      ({| Id := 0; Response := false; Truncated := false; Compress := false;
          Rcode := 0; Questions := []; IsEdns0 := None |}, Some ErrShortRead)
  end.

Definition TypeToString (t : Z) : option string :=
  if t =? 1 then Some "A"%string
  else if t =? 28 then Some "AAAA"%string
  else if t =? 43 then Some "DS"%string
  else None.

Definition ClassToString (c : Z) : option string :=
  if c =? 1 then Some "IN"%string
  else if c =? 3 then Some "CH"%string
  else None.

End header.

(** ** Concrete servers, requests and connections used in the examples *)

Module fixtures.
Import dnsserver proxy.

(** A chain that answers with response code [rc]. *)
Definition answering (rc : Z) : Handler :=
  fun w r => (dnsserver.WriteMsg w (SetRcode r rc), Returned (rc, None)).

(** A chain that panics before writing anything. *)
Definition panicking : Handler := fun w r => (w, Panicked).

Definition zoneOf (host : string) (h : Handler) : zone :=
  mkZone (mkConfig host "53") h.

Definition subZone : zone := zoneOf "a.b.example.org." (answering 3).
Definition parentZone : zone := zoneOf "example.org." (answering 0).
Definition rootZone : zone := zoneOf "." (answering 0).

(** A subzone and its parent, no catch-all. *)
Definition twoZones : Server :=
  mkServer ":53" (<["a.b.example.org." := subZone]> (<["example.org." := parentZone]> ∅)).

(** One zone and the catch-all. *)
Definition zoneAndRoot : Server :=
  mkServer ":53" (<["example.org." := parentZone]> (<["." := rootZone]> ∅)).

Definition faulty : Server :=
  mkServer ":53" (<["example.org." := zoneOf "example.org." panicking]> ∅).

(** A zone whose chain writes a REFUSED answer and returns that code. *)
Definition refusingZone : zone := zoneOf "example.org." (answering 5).

(** Every configuration gets the same chain; the configuration for the
    root is the one with the chaos middleware. *)
Definition plainStack : Config -> Handler := fun _ => answering 0.
Definition noChaos : Config -> bool := fun _ => false.
Definition rootHasChaos : Config -> bool := fun c => String.eqb (Host c) ".".

Definition client : ResponseWriter := mkWriter "udp" "192.0.2.7:40000" [].

Definition query (id : Z) (name : string) (qtype : Z) : Msg :=
  mkMsg id false false false 0 [mkQuestion name qtype 1] None.

(** The same query with an OPT record of EDNS version 1. *)
Definition versionOne (id : Z) (name : string) (qtype : Z) : Msg :=
  mkMsg id false false false 0 [mkQuestion name qtype 1] (Some (mkOPT 4096 1)).

(** The header-only reply with transaction ID [id]. *)
Definition replyBytes (id : Z) (tc : bool) : list byte :=
  fst (header.Pack (mkMsg id true tc false 0 [] None)).

Definition streamConn (evs : list ReadEv) : Conn :=
  mkConn TCPConn "198.51.100.1:53" evs [] None.

Definition streamPool : Pool :=
  mkPool 1 5 (dialTimeout "tcp" "198.51.100.1:53" defaultTimeout).

(** A peer that accepts the dial and the writes and sends [evs]. *)
Definition sending (evs : list ReadEv) : Peer := mkPeer None evs None.

(** A peer that accepts the dial and fails every write. *)
Definition deaf : Peer := mkPeer None [] (Some (ErrOther "broken pipe")).

(** A peer that cannot be dialled. *)
Definition unreachable : Peer := mkPeer (Some (ErrOther "connection refused")) [] None.

(** An upstream whose stream pool does dial a stream. *)
Definition upstream : UpstreamHost :=
  mkUpstream "198.51.100.1:53" streamPool (NewUDPPool "198.51.100.1:53").

(** An upstream built from the two pool constructors of the sources. *)
Definition defaultUpstream : UpstreamHost :=
  mkUpstream "198.51.100.1:53" (NewTCPPool "198.51.100.1:53") (NewUDPPool "198.51.100.1:53").

Definition streamClient : ResponseWriter := mkWriter "tcp" "192.0.2.7:40000" [].

Definition idle : Client := mkClient defaultTimeout ∅.

(** The stream connection of [upstream] once the query with ID 1 has been
    written to it, with [evs] left to read. *)
Definition afterWrite (evs : list ReadEv) : Conn :=
  mkConn TCPConn "198.51.100.1:53" evs [fst (header.Pack (query 1 "example.org." 1))] None.

Definition serve :=
  proxy.ServeDNS header.Pack header.Unpack header.TypeToString header.ClassToString.

End fixtures.

Section Dispatcher.
Import dnsserver.

Lemma fill_length n : forall i b q off, List.length (fill n i b q off) = List.length b.
Proof.
  induction n as [|n IH]; intros i b q off; simpl; [reflexivity|].
  destruct (q !! (off + i)%nat); [|reflexivity].
  rewrite IH. apply length_insert.
Qed.

Lemma fill_shape n : forall i b q off,
  (i + n <= List.length b)%nat ->
  (off + i + n <= List.length q)%nat ->
  fill n i b q off
  = take i b ++ (lower <$> take n (drop (off + i) q)) ++ drop (i + n) b.
Proof.
  induction n as [|n IH]; intros i b q off Hb Hq; simpl.
  - rewrite Nat.add_0_r. symmetry. apply take_drop.
  - destruct (lookup_lt_is_Some_2 q (off + i)%nat) as [c Hc]; [lia|].
    rewrite Hc, IH by (rewrite ?length_insert; lia).
    rewrite (drop_S q c (off + i)) by exact Hc.
    rewrite firstn_cons, fmap_cons.
    replace (off + S i)%nat with (S (off + i)) by lia.
    replace (S i + n)%nat with (i + S n)%nat by lia.
    rewrite drop_insert_lt by lia.
    destruct (lookup_lt_is_Some_2 (<[i:=lower c]> b) i) as [x Hx];
      [rewrite length_insert; lia|].
    rewrite (take_S_r _ _ _ Hx), take_insert_ge by lia.
    rewrite list_lookup_insert_eq in Hx by lia. injection Hx as <-.
    rewrite <- app_assoc. reflexivity.
Qed.

Lemma fill_candidate b q off :
  List.length b = List.length q ->
  string_of_list_ascii (take (List.length (drop off q)) (fill (List.length (drop off q)) 0 b q off))
  = candidate q off.
Proof.
  intros Hb. unfold candidate. f_equal.
  destruct (decide (off <= List.length q)%nat) as [Hoff|Hoff].
  2: { rewrite (drop_ge q off) by lia. reflexivity. }
  rewrite length_drop.
  rewrite fill_shape by lia.
  rewrite Nat.add_0_r. simpl.
  rewrite take_app_le by (rewrite length_fmap, length_take, length_drop; lia).
  rewrite take_ge by (rewrite length_fmap, length_take, length_drop; lia).
  rewrite take_ge by (rewrite length_drop; lia).
  reflexivity.
Qed.

Lemma string_of_list_ascii_length (l : list ascii) :
  String.length (string_of_list_ascii l) = List.length l.
Proof. induction l as [|c l IH]; simpl; [reflexivity | now rewrite IH]. Qed.

Lemma candidate_length q off :
  String.length (candidate q off) = (List.length q - off)%nat.
Proof.
  unfold candidate.
  now rewrite string_of_list_ascii_length, length_fmap, length_drop.
Qed.

(** [NextLabel] moves forward, and stays inside the name unless it reports
    the end. *)
Lemma NextLabel_loop_bound rest : forall i quote o fin,
  NextLabel_loop rest i quote = (o, fin) ->
  (i < o)%nat /\ (fin = false -> (o < i + List.length rest)%nat).
Proof.
  induction rest as [|c rest IH]; intros i quote o fin H; simpl in H.
  - injection H as <- <-. split; [lia | discriminate].
  - destruct rest as [|c' rest'].
    + injection H as <- <-. split; [lia | discriminate].
    + destruct (Ascii.eqb c "\"%char).
      * apply IH in H. simpl in *. destruct H as [H1 H2]. split; [lia|].
        intros Hf. specialize (H2 Hf). lia.
      * destruct (Ascii.eqb c "."%char).
        -- destruct quote.
           ++ apply IH in H. simpl in *. destruct H as [H1 H2]. split; [lia|].
              intros Hf. specialize (H2 Hf). lia.
           ++ injection H as <- <-. simpl. split; [lia | intros _; lia].
        -- apply IH in H. simpl in *. destruct H as [H1 H2]. split; [lia|].
           intros Hf. specialize (H2 Hf). lia.
Qed.

Lemma NextLabel_bound q off off' :
  NextLabel q off = (off', false) -> (off < off' < List.length q)%nat.
Proof.
  unfold NextLabel. intros H.
  apply NextLabel_loop_bound in H. destruct H as [H1 H2].
  specialize (H2 eq_refl). rewrite length_drop in H2. lia.
Qed.

Lemma walk_S fuel s d r qtype q b off :
  walk (S fuel) s d r qtype q b off =
  let l := List.length (drop off q) in
  let b' := fill l 0 b q off in
  let next :=
    let '(off', fin) := NextLabel q off in
    if fin then Some (lastResort s d r)
    else walk fuel s d r qtype q b' off' in
  match zones s !! string_of_list_ascii (take l b') with
  | Some h =>
      if negb (qtype =? TypeDS) then Some (invoke (string_of_list_ascii (take l b')) h d r)
      else next
  | None => next
  end.
Proof. reflexivity. Qed.

Lemma labels_ge fuel : forall q off o, o ∈ labels fuel q off -> (off <= o)%nat.
Proof.
  induction fuel as [|fuel IH]; intros q off o Ho; simpl in Ho.
  - now apply elem_of_nil in Ho.
  - apply elem_of_cons in Ho. destruct Ho as [->|Ho]; [lia|].
    destruct (NextLabel q off) as [off' fin] eqn:E.
    destruct fin; [now apply elem_of_nil in Ho|].
    apply NextLabel_bound in E. apply IH in Ho. lia.
Qed.

Lemma labels_split_later fuel : forall q off pre o post o',
  labels fuel q off = pre ++ o :: post -> o' ∈ post -> (o <= o')%nat.
Proof.
  induction fuel as [|fuel IH]; intros q off pre o post o' H Ho'; simpl in H.
  - now destruct pre.
  - destruct (NextLabel q off) as [off' fin] eqn:E.
    destruct pre as [|p0 pre]; simpl in H; injection H as <- H.
    + destruct fin; subst post; [now apply elem_of_nil in Ho'|].
      apply NextLabel_bound in E. apply labels_ge in Ho'. lia.
    + destruct fin; [now destruct pre|].
      eapply IH; eauto.
Qed.

(** The first registered candidate is served, for a query that is not of
    type DS. *)
Lemma walk_hit fuel : forall s d r qtype q b off pre o post h,
  qtype <> TypeDS ->
  List.length b = List.length q ->
  labels fuel q off = pre ++ o :: post ->
  (forall o', o' ∈ pre -> zones s !! candidate q o' = None) ->
  zones s !! candidate q o = Some h ->
  walk fuel s d r qtype q b off = Some (invoke (candidate q o) h d r).
Proof.
  induction fuel as [|fuel IH]; intros s d r qtype q b off pre o post h Hds Hb Hl Hpre Hh.
  - simpl in Hl. now destruct pre.
  - rewrite walk_S. cbv zeta. rewrite (fill_candidate b q off Hb).
    simpl in Hl. destruct pre as [|p0 pre]; simpl in Hl; injection Hl as <- Hl.
    + rewrite Hh. apply Z.eqb_neq in Hds. now rewrite Hds.
    + rewrite (Hpre off) by (apply elem_of_cons; now left).
      destruct (NextLabel q off) as [off' fin].
      destruct fin; [now destruct pre|].
      eapply IH; eauto.
      * now rewrite fill_length.
      * intros o' Ho'. apply Hpre. apply elem_of_cons. now right.
Qed.

(** When no candidate may be served, the walk ends at the last resort. *)
Lemma walk_miss fuel : forall s d r qtype q b off,
  (List.length q - off < fuel)%nat ->
  List.length b = List.length q ->
  (forall o, o ∈ labels fuel q off -> qtype = TypeDS \/ zones s !! candidate q o = None) ->
  walk fuel s d r qtype q b off = Some (lastResort s d r).
Proof.
  induction fuel as [|fuel IH]; intros s d r qtype q b off Hf Hb Hno; [lia|].
  rewrite walk_S. cbv zeta. rewrite (fill_candidate b q off Hb).
  simpl in Hno.
  assert (Hnext :
    (let '(off', fin) := NextLabel q off in
     if fin then Some (lastResort s d r)
     else walk fuel s d r qtype q (fill (List.length (drop off q)) 0 b q off) off')
    = Some (lastResort s d r)).
  { destruct (NextLabel q off) as [off' fin] eqn:E.
    destruct fin; [reflexivity|].
    pose proof (NextLabel_bound _ _ _ E).
    apply IH; [lia | now rewrite fill_length |].
    intros o Ho. apply Hno. apply elem_of_cons. now right. }
  destruct (Hno off) as [Hds | Hnone]; [apply elem_of_cons; now left | |].
  - subst qtype. rewrite Z.eqb_refl. simpl.
    destruct (zones s !! candidate q off); exact Hnext.
  - rewrite Hnone. exact Hnext.
Qed.

(** The walk never runs out of the fuel [ServeDNS_body] gives it. *)
Lemma walk_total fuel : forall s d r qtype q b off,
  (List.length q - off < fuel)%nat ->
  List.length b = List.length q ->
  is_Some (walk fuel s d r qtype q b off).
Proof.
  induction fuel as [|fuel IH]; intros s d r qtype q b off Hf Hb; [lia|].
  rewrite walk_S. cbv zeta.
  assert (Hnext : is_Some
    (let '(off', fin) := NextLabel q off in
     if fin then Some (lastResort s d r)
     else walk fuel s d r qtype q (fill (List.length (drop off q)) 0 b q off) off')).
  { destruct (NextLabel q off) as [off' fin] eqn:E.
    destruct fin; [eauto|].
    pose proof (NextLabel_bound _ _ _ E).
    apply IH; [lia | now rewrite fill_length]. }
  destruct (zones s !! _); [|exact Hnext].
  destruct (negb _); [eauto | exact Hnext].
Qed.

Lemma ServeDNS_body_walk s w r q0 rest :
  snd (Edns0Version r) = None ->
  Questions r = q0 :: rest ->
  ServeDNS_body s w r =
  walk (S (List.length (list_ascii_of_string (Name q0)))) s (mkDispatch w []) r (Qtype q0)
       (list_ascii_of_string (Name q0))
       (replicate (List.length (list_ascii_of_string (Name q0))) zero) 0.
Proof.
  intros He Hq. unfold ServeDNS_body.
  destruct (Edns0Version r) as [m [e|]]; [discriminate|]. now rewrite Hq.
Qed.

Lemma invoke_served key h d r : served (fst (invoke key h d r)) = served d ++ [key].
Proof.
  unfold invoke. destruct (stack h (writer d) r) as [w' [[rc e]|]]; simpl; [|reflexivity].
  destruct (RcodeNoClientWrite rc); reflexivity.
Qed.

Lemma recovered_served r x : served (fst (recovered r x)) = served (fst x).
Proof. destruct x as [d [[]|]]; reflexivity. Qed.

Lemma ServeDNS_body_total s w r : is_Some (ServeDNS_body s w r).
Proof.
  unfold ServeDNS_body.
  destruct (Edns0Version r) as [[m|] [e|]]; eauto.
  - destruct (Questions r); eauto. apply walk_total; [lia | now rewrite length_replicate].
  - destruct (Questions r); eauto. apply walk_total; [lia | now rewrite length_replicate].
Qed.

(** C1 (as amended).  For a request that passes the EDNS version check and
    whose type is not DS, the dispatcher walks the candidate names from the
    full query name toward the root, looks each one up lower-cased, and
    invokes the chain of the first registered candidate, which is also the
    longest registered one: a registered subzone wins over its registered
    parent. *)
Theorem first_match_wins s w r :
  snd (Edns0Version r) = None ->
  (forall q0 rest, Questions r = q0 :: rest -> Qtype q0 <> TypeDS) ->
  first_match_routing s w r.
Proof.
  intros He Hds q0 rest pre key post h Hq Hc Hpre Hh.
  unfold candidates in Hc.
  apply fmap_app_inv in Hc. destruct Hc as (lpre & l2 & -> & Hc & Hl).
  symmetry in Hc. apply fmap_cons_inv in Hc. destruct Hc as (o & lpost & -> & -> & ->).
  split; [|split].
  - unfold ServeDNS. rewrite (ServeDNS_body_walk s w r q0 rest He Hq).
    erewrite walk_hit; eauto.
    + now rewrite length_replicate.
    + intros o' Ho'. apply Hpre. now apply list_elem_of_fmap_2.
  - now rewrite recovered_served, invoke_served.
  - intros k Hk [z Hz]. apply elem_of_app in Hk. destruct Hk as [Hk|Hk].
    + rewrite (Hpre k Hk) in Hz. discriminate.
    + apply elem_of_cons in Hk. destruct Hk as [->|Hk]; [lia|].
      apply list_elem_of_fmap_1 in Hk. destruct Hk as (o' & -> & Ho').
      pose proof (labels_split_later _ _ _ _ _ _ _ Hl Ho').
      rewrite !candidate_length. lia.
Qed.

(** A query for [www.A.b.Example.org.] on a server with the zones
    [a.b.example.org.] and [example.org.] reaches the chain of the
    subzone. *)
Lemma first_match_wins_witness :
  ServeDNS fixtures.twoZones fixtures.client (fixtures.query 7 "www.A.b.Example.org." 1)
  = Some (recovered (fixtures.query 7 "www.A.b.Example.org." 1)
            (invoke "a.b.example.org." fixtures.subZone (mkDispatch fixtures.client [])
               (fixtures.query 7 "www.A.b.Example.org." 1))).
Proof.
  refine (proj1 (first_match_wins fixtures.twoZones fixtures.client
                   (fixtures.query 7 "www.A.b.Example.org." 1) _ _
                   (mkQuestion "www.A.b.Example.org." 1 1) []
                   ["www.a.b.example.org."%string] "a.b.example.org."%string
                   ["b.example.org."%string; "example.org."%string; "org."%string]
                   fixtures.subZone _ _ _ _)).
  - reflexivity.
  - intros q0 rest H. injection H as <- _. vm_compute. discriminate.
  - reflexivity.
  - vm_compute. reflexivity.
  - intros k Hk. apply elem_of_cons in Hk. destruct Hk as [->|Hk].
    + vm_compute. reflexivity.
    + now apply elem_of_nil in Hk.
  - vm_compute. reflexivity.
Defined.

(** C1 as stated fails for a DS query: with [example.org.] and the root
    registered, a DS query for [example.org.] reaches the root's chain,
    not the chain of the first registered candidate. *)
Lemma first_match_fails_for_DS :
  ~ first_match_routing fixtures.zoneAndRoot fixtures.client
      (fixtures.query 7 "example.org." TypeDS).
Proof.
  intros H.
  destruct (H (mkQuestion "example.org." TypeDS 1) [] [] "example.org."%string
              ["org."%string] fixtures.parentZone) as (H1 & _ & _).
  - reflexivity.
  - vm_compute. reflexivity.
  - intros k Hk. now apply elem_of_nil in Hk.
  - vm_compute. reflexivity.
  - apply (f_equal (fmap (fun x => served (fst x)))) in H1.
    vm_compute in H1. discriminate.
Qed.

(** C2 (code as it is).  A DS query is never served by a zone found in the
    label walk: every registered suffix is skipped, not the apex alone, and
    the request ends at the last resort (the root zone if registered, else
    REFUSED). *)
Theorem ds_query_skips_every_zone s w r q0 rest :
  snd (Edns0Version r) = None ->
  Questions r = q0 :: rest ->
  Qtype q0 = TypeDS ->
  ServeDNS_body s w r = Some (lastResort s (mkDispatch w []) r).
Proof.
  intros He Hq Hds.
  rewrite (ServeDNS_body_walk s w r q0 rest He Hq).
  apply walk_miss; [lia | now rewrite length_replicate | now left].
Qed.

(** With [a.b.example.org.] and its parent [example.org.] both registered,
    a DS query at the apex [a.b.example.org.] is answered REFUSED and no
    chain runs. *)
Lemma ds_query_skips_every_zone_witness :
  ServeDNS fixtures.twoZones fixtures.client (fixtures.query 7 "a.b.example.org." TypeDS)
  = Some ({| writer := WriteMsg fixtures.client
                         (SetRcode (fixtures.query 7 "a.b.example.org." TypeDS) RcodeRefused);
             served := [] |}, Returned tt).
Proof.
  unfold ServeDNS.
  rewrite (ds_query_skips_every_zone fixtures.twoZones fixtures.client
             (fixtures.query 7 "a.b.example.org." TypeDS)
             (mkQuestion "a.b.example.org." TypeDS 1) [] eq_refl eq_refl eq_refl).
  vm_compute. reflexivity.
Defined.

(** C8.  [ServeDNS] always returns normally; a panic of the body (the
    dispatch itself or the chain it invoked) is turned into a SERVFAIL
    response written to the client after whatever was written before; and a
    panic of a zone's chain is such a panic. *)
Theorem panic_becomes_servfail s w r :
  (exists d, ServeDNS s w r = Some (d, Returned tt)) /\
  (forall d0, ServeDNS_body s w r = Some (d0, Panicked) ->
     ServeDNS s w r
     = Some ({| writer := WriteMsg (writer d0) (SetRcode r RcodeServerFailure);
                served := served d0 |}, Returned tt)) /\
  (forall key h d w', stack h (writer d) r = (w', Panicked) ->
     recovered r (invoke key h d r)
     = ({| writer := WriteMsg w' (SetRcode r RcodeServerFailure);
           served := served d ++ [key] |}, Returned tt)).
Proof.
  split; [|split].
  - unfold ServeDNS. destruct (ServeDNS_body_total s w r) as [[d res] ->].
    destruct res as [[]|]; simpl; eauto.
  - intros d0 H. unfold ServeDNS. rewrite H. reflexivity.
  - intros key h d w' H. unfold invoke. rewrite H. reflexivity.
Qed.

(** A zone whose chain panics: the client gets SERVFAIL. *)
Lemma panic_becomes_servfail_witness :
  ServeDNS fixtures.faulty fixtures.client (fixtures.query 7 "www.example.org." 1)
  = Some ({| writer := WriteMsg fixtures.client
                         (SetRcode (fixtures.query 7 "www.example.org." 1) RcodeServerFailure);
             served := ["example.org."%string] |}, Returned tt).
Proof.
  exact (proj1 (proj2 (panic_becomes_servfail fixtures.faulty fixtures.client
                         (fixtures.query 7 "www.example.org." 1)))
           {| writer := fixtures.client; served := ["example.org."%string] |} eq_refl).
Defined.

(** C9 (as amended).  For a request that passes the EDNS version check:
    when no candidate name of the query is registered and the registry has
    no root entry, the dispatcher writes a REFUSED response and invokes no
    chain. *)
Theorem no_zone_refused s w r :
  snd (Edns0Version r) = None ->
  unmatched_is_refused s w r.
Proof.
  intros He q0 rest Hq Hno Hroot. unfold ServeDNS.
  rewrite (ServeDNS_body_walk s w r q0 rest He Hq).
  rewrite walk_miss.
  - unfold lastResort. rewrite Hroot. reflexivity.
  - lia.
  - now rewrite length_replicate.
  - intros o Ho. right. apply Hno. unfold candidates. now apply list_elem_of_fmap_2.
Qed.

Lemma no_zone_refused_witness :
  ServeDNS fixtures.twoZones fixtures.client (fixtures.query 7 "other.net." 1)
  = Some ({| writer := WriteMsg fixtures.client
                         (SetRcode (fixtures.query 7 "other.net." 1) RcodeRefused);
             served := [] |}, Returned tt).
Proof.
  apply (no_zone_refused fixtures.twoZones fixtures.client
           (fixtures.query 7 "other.net." 1) eq_refl (mkQuestion "other.net." 1 1) []).
  - reflexivity.
  - intros k Hk. vm_compute in Hk.
    apply elem_of_cons in Hk. destruct Hk as [->|Hk]; [vm_compute; reflexivity|].
    apply elem_of_cons in Hk. destruct Hk as [->|Hk]; [vm_compute; reflexivity|].
    now apply elem_of_nil in Hk.
  - vm_compute. reflexivity.
Defined.

(** C9 as stated fails for a request with an unsupported EDNS version: a
    query for [other.net.] whose OPT record has version 1, on a server
    with neither a matching zone nor a root entry, is answered BADVERS
    before any routing, not REFUSED. *)
Lemma unmatched_bad_version_not_refused :
  ~ unmatched_is_refused fixtures.twoZones fixtures.client
      (fixtures.versionOne 7 "other.net." 1).
Proof.
  intros H.
  specialize (H (mkQuestion "other.net." 1 1) [] eq_refl).
  assert (H1 : ServeDNS fixtures.twoZones fixtures.client
                 (fixtures.versionOne 7 "other.net." 1)
               = Some ({| writer := WriteMsg fixtures.client
                                      (SetRcode (fixtures.versionOne 7 "other.net." 1)
                                         RcodeRefused);
                          served := [] |}, Returned tt)).
  { apply H.
    - intros k Hk. vm_compute in Hk.
      apply elem_of_cons in Hk. destruct Hk as [->|Hk]; [vm_compute; reflexivity|].
      apply elem_of_cons in Hk. destruct Hk as [->|Hk]; [vm_compute; reflexivity|].
      now apply elem_of_nil in Hk.
    - vm_compute. reflexivity. }
  vm_compute in H1. discriminate.
Qed.

End Dispatcher.

(** ** The proxy client *)

Section Client.
Import proxy.

Variable Pack : Msg -> list byte * option error.
Variable Unpack : list byte -> Msg * option error.
Variable TypeToString : Z -> option string.
Variable ClassToString : Z -> option string.

Lemma append_same_length_inj (a b x y : string) :
  String.length a = String.length b -> (a ++ x)%string = (b ++ y)%string -> a = b.
Proof.
  revert b. induction a as [|c a IH]; intros [|c' b] Hl H; simpl in *;
    try discriminate; [reflexivity|].
  injection H as -> H. injection Hl as Hl. f_equal. now apply IH.
Qed.

(** C4 (code as it is).  The dedup key starts with the query name as it
    was received: two names of the same length that are not equal byte for
    byte, such as two spellings that differ in letter case, give different
    keys. *)
Theorem dedup_key_keeps_case (n1 n2 : string) (t c : Z) :
  String.length n1 = String.length n2 ->
  n1 <> n2 ->
  dedupKey TypeToString ClassToString (mkQuestion n1 t c)
  <> dedupKey TypeToString ClassToString (mkQuestion n2 t c).
Proof.
  intros Hl Hne H. apply Hne. unfold dedupKey in H. simpl in H.
  eapply append_same_length_inj; eauto.
Qed.

(** C5 (code as it is).  A request that came in over TCP borrows from the
    upstream's stream pool; when that pool was made by [NewTCPPool], the
    connection it hands out, whenever the dial succeeds, is a datagram
    connection to the address. *)
Theorem stream_pool_dials_datagram w u peer address :
  Proto w = "tcp"%string ->
  TCPPool u = NewTCPPool address ->
  borrow w u peer = fst (Get (TCPPool u) peer)
  /\ match dialErr peer with
     | None => exists co, borrow w u peer = Some co
                          /\ kind co = UDPConn /\ remote co = address
     | Some _ => borrow w u peer = None
     end.
Proof.
  intros Hp Hu. unfold borrow. rewrite Hp, Hu. simpl. split; [reflexivity|].
  unfold dialTimeout. destruct (dialErr peer); [reflexivity|].
  eexists. repeat split.
Qed.

(** C6 (code as it is).  [WriteMsg] hands the packed message to the
    connection's own write: on a stream connection the bytes sent are the
    packed message alone, without a length prefix, whatever its length. *)
Theorem WriteMsg_sends_unframed co m out :
  kind co = TCPConn ->
  writeErr co = None ->
  Pack m = (out, None) ->
  exists co', WriteMsg Pack co m = (co', None)
              /\ outgoing co' = outgoing co ++ [out].
Proof.
  intros Hk Hw Hp. unfold WriteMsg, conn_Write. rewrite Hp, Hw.
  eexists. split; reflexivity.
Qed.

Lemma udpBuffer_length udpsize :
  List.length (udpBuffer udpsize)
  = Z.to_nat (if udpsize >? MinMsgSize then udpsize else MinMsgSize).
Proof. unfold udpBuffer. destruct (udpsize >? MinMsgSize); apply length_replicate. Qed.

Lemma udpBuffer_at_least_min udpsize : (512 <= List.length (udpBuffer udpsize))%nat.
Proof.
  rewrite udpBuffer_length. unfold MinMsgSize.
  destruct (udpsize >? 512) eqn:E; [|lia].
  apply Z.gtb_lt in E. lia.
Qed.

(** [Read] on a connection that is neither TCP nor TLS calls itself with
    the same arguments: no amount of fuel makes it return. *)
Lemma Read_datagram_never_returns fuel : forall co p,
  kind co = UDPConn -> (2 <= List.length p)%nat -> Read fuel (Some co) p = None.
Proof.
  induction fuel as [|fuel IH]; intros co p Hk Hp; simpl; [reflexivity|].
  destruct (Nat.ltb_spec (List.length p) 2) as [?|_]; [lia|].
  rewrite Hk, IH by assumption. reflexivity.
Qed.

(** C7 (code as it is).  Reading a reply over the datagram transport never
    returns: the receive buffer is allocated, then [Read] recurses without
    reaching the connection, so no packet is consumed. *)
Theorem datagram_read_never_returns fuel address peer sent werr udpsize :
  readMsgHeader fuel (mkConn UDPConn address peer sent werr) udpsize = None.
Proof.
  unfold readMsgHeader. simpl.
  rewrite Read_datagram_never_returns; [reflexivity | reflexivity |].
  pose proof (udpBuffer_at_least_min udpsize). lia.
Qed.

Lemma tcpRead_loop_eq fuel t p n :
  tcpRead_loop fuel t p n =
  if (n <? List.length p)%nat then
    match fuel with
    | O => None
    | S fuel' =>
        let '(t', tl, j, err) := conn_Read t (drop n p) in
        match err with
        | Some e => Some (t', take n p ++ tl, n, Some e)
        | None => tcpRead_loop fuel' t' (take n p ++ tl) (n + j)
        end
    end
  else Some (t, p, n, None).
Proof. destruct fuel; reflexivity. Qed.

Lemma tcpRead_loop_full fuel t p n :
  (List.length p <= n)%nat -> tcpRead_loop fuel t p n = Some (t, p, n, None).
Proof.
  intros H. rewrite tcpRead_loop_eq.
  destruct (Nat.ltb_spec n (List.length p)); [lia | reflexivity].
Qed.

Lemma conn_Read_stream t bs rest p :
  kind t <> UDPConn ->
  incoming t = Data bs :: rest ->
  conn_Read t p =
  (with_incoming t (if (List.length p <? List.length bs)%nat
                    then Data (drop (Nat.min (List.length bs) (List.length p)) bs) :: rest
                    else rest),
   take (Nat.min (List.length bs) (List.length p)) bs
     ++ drop (Nat.min (List.length bs) (List.length p)) p,
   Nat.min (List.length bs) (List.length p), None).
Proof.
  intros Hk Hin. unfold conn_Read. rewrite Hin.
  destruct (kind t); [reflexivity | reflexivity | contradiction].
Qed.

Lemma tcpRead_loop_accumulates fuel : forall t p n,
  kind t <> UDPConn ->
  (List.length (incoming t) <= fuel)%nat ->
  (n <= List.length p)%nat ->
  (List.length p - n <= List.length (stream (incoming t)))%nat ->
  exists t',
    tcpRead_loop fuel t p n
    = Some (t', take n p ++ take (List.length p - n) (stream (incoming t)), List.length p, None)
    /\ kind t' = kind t
    /\ stream (incoming t') = drop (List.length p - n) (stream (incoming t)).
Proof.
  induction fuel as [|fuel IH]; intros t p n Hk Hf Hn Hs.
  - destruct (incoming t) as [|ev rest] eqn:Hin; [|simpl in Hf; lia].
    simpl in Hs. assert (n = List.length p) as -> by lia.
    exists t. rewrite tcpRead_loop_full by lia.
    rewrite Nat.sub_diag, take_ge by lia. simpl. rewrite app_nil_r.
    split; [reflexivity | split; [reflexivity | now rewrite Hin]].
  - destruct (decide (n = List.length p)) as [->|Hlt].
    { exists t. rewrite tcpRead_loop_full by lia.
      rewrite Nat.sub_diag, take_ge by lia. simpl. rewrite app_nil_r. auto. }
    rewrite tcpRead_loop_eq.
    destruct (Nat.ltb_spec n (List.length p)) as [Hn'|?]; [|lia].
    destruct (incoming t) as [|[bs|e] rest] eqn:Hin; simpl in Hs; try lia.
    rewrite (conn_Read_stream t bs rest _ Hk Hin).
    rewrite length_drop. rewrite length_app in Hs. simpl in Hf.
    destruct (Nat.ltb_spec (List.length p - n) (List.length bs)) as [Hcap|Hcap].
    + rewrite Nat.min_r by lia.
      rewrite tcpRead_loop_full
        by (rewrite !length_app, !length_take, !length_drop; lia).
      exists (with_incoming t (Data (drop (List.length p - n) bs) :: rest)).
      split; [|split]; [| reflexivity |].
      * rewrite (drop_ge (drop n p)) by (rewrite length_drop; lia).
        simpl. rewrite app_nil_r, take_app_le by lia.
        repeat f_equal. lia.
      * simpl. rewrite drop_app_le by lia. reflexivity.
    + rewrite Nat.min_l by lia.
      rewrite (take_ge bs) by lia. rewrite drop_drop.
      destruct (IH (with_incoming t rest) (take n p ++ bs ++ drop (n + List.length bs) p)
                  (n + List.length bs)%nat) as (t' & Ht' & Hk' & Hs').
      * exact Hk.
      * simpl. lia.
      * rewrite !length_app, length_take, length_drop. lia.
      * simpl. rewrite !length_app, length_take, length_drop. lia.
      * assert (Hlen : List.length (take n p ++ bs ++ drop (n + List.length bs) p)
                       = List.length p)
          by (rewrite !length_app, length_take, length_drop; lia).
        assert (Htake : take (n + List.length bs)
                          (take n p ++ bs ++ drop (n + List.length bs) p)
                        = take n p ++ bs).
        { rewrite app_assoc. apply take_app_length'.
          rewrite length_app, length_take. lia. }
        rewrite Hlen, Htake in Ht'. rewrite Hlen in Hs'. simpl in Ht', Hs'.
        exists t'. split; [|split].
        -- rewrite Ht'. simpl. rewrite (take_app_ge bs) by lia.
           rewrite <- app_assoc.
           now replace (List.length p - n - List.length bs)%nat
             with (List.length p - (n + List.length bs))%nat by lia.
        -- exact Hk'.
        -- rewrite Hs'. simpl. rewrite drop_app_ge by lia. f_equal. lia.
Qed.

Lemma tcpRead_as_loop fuel t p :
  p <> [] -> tcpRead fuel t p = tcpRead_loop (S fuel) t p 0.
Proof.
  intros Hp. rewrite tcpRead_loop_eq. unfold tcpRead.
  destruct p as [|b p]; [contradiction|]. simpl Nat.ltb. cbv iota.
  rewrite drop_0. simpl take.
  destruct (conn_Read t (b :: p)) as [[[t' tl] j] [e|]] eqn:E; simpl; [|reflexivity].
  unfold conn_Read in E. destruct (incoming t) as [|[bs|e'] rest]; congruence.
Qed.

(** C10.  The length prefix is taken from a single read: a read that
    yields fewer than two bytes is a short read, whatever the stream would
    deliver next, and so is a prefix that decodes to zero.  The body is
    accumulated: as long as the stream holds enough bytes, however they are
    split over reads, [tcpRead] fills the whole buffer. *)
Theorem prefix_single_read_body_accumulated :
  (forall t bs rest,
      incoming t = Data bs :: rest ->
      (List.length bs < 2)%nat ->
      tcpMsgLen t = (with_incoming t rest, O, Some ErrShortRead)) /\
  (forall t more rest,
      incoming t = Data (x00 :: x00 :: more) :: rest ->
      snd (tcpMsgLen t) = Some ErrShortRead) /\
  (forall fuel t p,
      kind t <> UDPConn ->
      p <> [] ->
      (List.length (incoming t) <= fuel)%nat ->
      (List.length p <= List.length (stream (incoming t)))%nat ->
      exists t',
        tcpRead fuel t p
        = Some (t', take (List.length p) (stream (incoming t)), List.length p, None)
        /\ stream (incoming t') = drop (List.length p) (stream (incoming t))).
Proof.
  split; [|split].
  - intros t bs rest Hin Hl. unfold tcpMsgLen, conn_Read. rewrite Hin.
    assert (Hk : (if (2 <? List.length bs)%nat
                  then Data (drop (Nat.min (List.length bs) 2) bs) :: rest else rest) = rest).
    { destruct (Nat.ltb_spec 2 (List.length bs)); [lia | reflexivity]. }
    simpl List.length.
    destruct (kind t); rewrite ?Hk;
      destruct bs as [|b0 [|b1 bs]]; simpl in *; try lia; reflexivity.
  - intros t more rest Hin. unfold tcpMsgLen, conn_Read. rewrite Hin.
    destruct more; destruct (kind t); reflexivity.
  - intros fuel t p Hk Hp Hf Hs.
    rewrite tcpRead_as_loop by assumption.
    destruct (tcpRead_loop_accumulates (S fuel) t p 0 Hk) as (t' & Ht' & _ & Hs'); try lia.
    rewrite Nat.sub_0_r in Ht', Hs'. simpl in Ht'. eauto.
Qed.

(** C3 (as amended).  When this caller runs the exchange and a reply was
    decoded: a reply marked truncated is returned as a success, with the
    request's ID installed and whatever error the exchange had dropped,
    also when its ID differs from the request's; a reply not marked
    truncated whose ID differs from the request's yields an error and no
    reply, [ErrId] when decoding had succeeded. *)
Theorem truncated_accepted_else_id_checked fuel c w r u peer q qs co co1 co2 rep err :
  Questions r = q :: qs ->
  group c !! dedupKey TypeToString ClassToString q = None ->
  borrow w u peer = Some co ->
  WriteMsg Pack co r = (co1, None) ->
  ReadMsg Unpack fuel co1 (ednsSize r MinMsgSize) = Some (co2, Some rep, err) ->
  (Truncated rep = true ->
   ServeDNS Pack Unpack TypeToString ClassToString fuel c w r u peer
   = Some (dnsserver.Returned
             (group c,
              Some {| Id := Id r; Response := Response rep; Truncated := true;
                      Compress := true; Rcode := Rcode rep;
                      Questions := Questions rep; IsEdns0 := IsEdns0 rep |}, None)))
  /\ (Truncated rep = false -> Id rep <> Id r ->
      exists e,
        ServeDNS Pack Unpack TypeToString ClassToString fuel c w r u peer
        = Some (dnsserver.Returned (group c, None, Some e))
        /\ (err = None -> e = ErrId)).
Proof.
  intros Hq Hg Hb Hw Hr.
  unfold ServeDNS, Exchange. rewrite Hq, Hg, Hb. unfold exchange_on, exchange.
  rewrite Hw, Hr. unfold written. rewrite Hq, Hg.
  split.
  - intros Ht. destruct err as [e|]; simpl.
    + rewrite Ht. reflexivity.
    + destruct (negb (Id rep =? Id r)); simpl; rewrite Ht; reflexivity.
  - intros Ht Hid. apply Z.eqb_neq in Hid. destruct err as [e|]; simpl.
    + rewrite Ht. exists e. split; [reflexivity | discriminate].
    + rewrite Hid. simpl. rewrite Ht. exists ErrId. split; reflexivity.
Qed.

End Client.

(** ** The properties above at concrete inputs *)

Section Instances.
Import proxy.

(** A stream whose peer answers a query with ID 1: once with a truncated
    reply carrying ID 2, which is accepted, once with a complete reply
    carrying ID 2, which is rejected. *)
Lemma truncated_accepted_else_id_checked_witness :
  fixtures.serve 10 fixtures.idle fixtures.streamClient (fixtures.query 1 "example.org." 1)
    fixtures.upstream (fixtures.sending [Data [x00; x0c]; Data (fixtures.replyBytes 2 true)])
  = Some (dnsserver.Returned
            (∅,
             Some {| Id := 1; Response := true; Truncated := true; Compress := true;
                     Rcode := 0; Questions := []; IsEdns0 := None |}, None))
  /\ exists e,
      fixtures.serve 10 fixtures.idle fixtures.streamClient (fixtures.query 1 "example.org." 1)
        fixtures.upstream
        (fixtures.sending [Data [x00; x0c]; Data (fixtures.replyBytes 2 false)])
      = Some (dnsserver.Returned (∅, None, Some e))
      /\ (@None error = None -> e = ErrId).
Proof.
  split.
  - exact (proj1 (truncated_accepted_else_id_checked
                    header.Pack header.Unpack header.TypeToString header.ClassToString
                    10 fixtures.idle fixtures.streamClient (fixtures.query 1 "example.org." 1)
                    fixtures.upstream
                    (fixtures.sending [Data [x00; x0c]; Data (fixtures.replyBytes 2 true)])
                    (mkQuestion "example.org." 1 1) []
                    (fixtures.streamConn [Data [x00; x0c]; Data (fixtures.replyBytes 2 true)])
                    (fixtures.afterWrite [Data [x00; x0c]; Data (fixtures.replyBytes 2 true)])
                    (fixtures.afterWrite [])
                    (mkMsg 2 true true false 0 [] None) (Some ErrTruncated)
                    eq_refl eq_refl eq_refl eq_refl eq_refl) eq_refl).
  - refine (proj2 (truncated_accepted_else_id_checked
                     header.Pack header.Unpack header.TypeToString header.ClassToString
                     10 fixtures.idle fixtures.streamClient (fixtures.query 1 "example.org." 1)
                     fixtures.upstream
                     (fixtures.sending [Data [x00; x0c]; Data (fixtures.replyBytes 2 false)])
                     (mkQuestion "example.org." 1 1) []
                     (fixtures.streamConn [Data [x00; x0c]; Data (fixtures.replyBytes 2 false)])
                     (fixtures.afterWrite [Data [x00; x0c]; Data (fixtures.replyBytes 2 false)])
                     (fixtures.afterWrite [])
                     (mkMsg 2 true false false 0 [] None) None
                     eq_refl eq_refl eq_refl eq_refl eq_refl) eq_refl _).
    simpl. discriminate.
Defined.

(** C3 as stated fails: the reply to the query with ID 1 carries ID 2 and
    the TC flag, and [Client.ServeDNS] returns it as a success. *)
Lemma id_mismatch_accepted_when_truncated :
  ~ id_mismatch_is_error header.Pack header.Unpack header.TypeToString header.ClassToString
      10 fixtures.idle fixtures.streamClient (fixtures.query 1 "example.org." 1)
      fixtures.upstream (fixtures.sending [Data [x00; x0c]; Data (fixtures.replyBytes 2 true)]).
Proof.
  intros H.
  destruct (H (mkQuestion "example.org." 1 1) []
              (fixtures.streamConn [Data [x00; x0c]; Data (fixtures.replyBytes 2 true)])
              (fixtures.afterWrite [Data [x00; x0c]; Data (fixtures.replyBytes 2 true)])
              (fixtures.afterWrite [])
              (mkMsg 2 true true false 0 [] None) (Some ErrTruncated)
              eq_refl eq_refl eq_refl eq_refl eq_refl) as (e & He & _).
  - simpl. discriminate.
  - vm_compute in He. discriminate.
Qed.

Lemma dedup_key_keeps_case_witness :
  dedupKey header.TypeToString header.ClassToString (mkQuestion "Example.org." 1 1)
  <> dedupKey header.TypeToString header.ClassToString (mkQuestion "example.org." 1 1).
Proof.
  apply (dedup_key_keeps_case header.TypeToString header.ClassToString
           "Example.org." "example.org." 1 1).
  - reflexivity.
  - discriminate.
Defined.

Lemma stream_pool_dials_datagram_witness :
  exists co,
    borrow fixtures.streamClient fixtures.defaultUpstream (fixtures.sending []) = Some co
    /\ kind co = UDPConn /\ remote co = "198.51.100.1:53"%string.
Proof.
  exact (proj2 (stream_pool_dials_datagram fixtures.streamClient
                  fixtures.defaultUpstream (fixtures.sending []) "198.51.100.1:53"
                  eq_refl eq_refl)).
Defined.

Lemma WriteMsg_sends_unframed_witness :
  exists co',
    WriteMsg header.Pack (fixtures.streamConn []) (fixtures.query 1 "example.org." 1)
    = (co', None)
    /\ outgoing co' = [fst (header.Pack (fixtures.query 1 "example.org." 1))].
Proof.
  exact (WriteMsg_sends_unframed header.Pack (fixtures.streamConn [])
           (fixtures.query 1 "example.org." 1)
           (fst (header.Pack (fixtures.query 1 "example.org." 1)))
           eq_refl eq_refl eq_refl).
Defined.

(** A prefix that arrives one byte at a time is a short read although the
    second byte is next in the stream; a three-byte body that arrives as
    one byte and then two is read whole. *)
Lemma prefix_single_read_body_accumulated_witness :
  tcpMsgLen (fixtures.streamConn [Data [x00]; Data [x0c]])
  = (fixtures.streamConn [Data [x0c]], O, Some ErrShortRead)
  /\ snd (tcpMsgLen (fixtures.streamConn [Data [x00; x00]])) = Some ErrShortRead
  /\ exists t',
      tcpRead 2 (fixtures.streamConn [Data [x01]; Data [x02; x03]]) [x00; x00; x00]
      = Some (t', [x01; x02; x03], 3%nat, None)
      /\ stream (incoming t') = [].
Proof.
  split; [|split].
  - exact (proj1 prefix_single_read_body_accumulated
             (fixtures.streamConn [Data [x00]; Data [x0c]]) [x00] [Data [x0c]]
             eq_refl (le_n 2)).
  - exact (proj1 (proj2 prefix_single_read_body_accumulated)
             (fixtures.streamConn [Data [x00; x00]]) [] [] eq_refl).
  - refine (proj2 (proj2 prefix_single_read_body_accumulated) 2%nat
              (fixtures.streamConn [Data [x01]; Data [x02; x03]]) [x00; x00; x00] _ _ _ _).
    + discriminate.
    + discriminate.
    + simpl. lia.
    + simpl. lia.
Defined.

End Instances.

(** ** More of the wire codec: framing, reading and their failures *)

Section Wire.
Import proxy.

Lemma byteZ_Zbyte z : byteZ (Zbyte z) = z mod 256.
Proof.
  unfold byteZ, Zbyte.
  assert (Hm : 0 <= z mod 256 < 256) by (apply Z.mod_pos_bound; lia).
  destruct (Byte.of_N (Z.to_N (z mod 256))) as [b|] eqn:E.
  - apply Byte.to_of_N in E. rewrite E. apply Z2N.id. lia.
  - apply Byte.of_N_None_iff in E. lia.
Qed.

Lemma Uint16_PutUint16 v tl : 0 <= v < 65536 -> Uint16 (PutUint16 v ++ tl) = v.
Proof.
  intros Hv. unfold PutUint16, Uint16. simpl.
  rewrite !byteZ_Zbyte.
  apply Z.bits_inj'. intros n Hn.
  rewrite Z.lor_spec, Z.shiftl_spec by lia.
  change 256 with (2 ^ 8).
  destruct (Z.ltb_spec n 8) as [Hlt|Hge].
  - rewrite (Z.testbit_neg_r _ (n - 8)) by lia.
    rewrite Z.mod_pow2_bits_low by lia. reflexivity.
  - rewrite (Z.mod_pow2_bits_high v 8 n) by lia. rewrite orb_false_r.
    destruct (Z.ltb_spec (n - 8) 8) as [Hlt2|Hge2].
    + rewrite Z.mod_pow2_bits_low by lia. rewrite Z.shiftr_spec by lia.
      f_equal. lia.
    + rewrite Z.mod_pow2_bits_high by lia.
      symmetry. replace v with (v mod 2 ^ 16) by (apply Z.mod_small; lia).
      apply Z.mod_pow2_bits_high. lia.
Qed.


(** X1.  The framed write on a stream: one write of the big-endian length and
    the payload, and the length reads back from the frame. *)
Theorem Write_stream_frames co p :
  kind co <> UDPConn ->
  writeErr co = None ->
  2 <= Z.of_nat (List.length p) <= MaxMsgSize ->
  Write co p
  = ({| kind := kind co; remote := remote co; incoming := incoming co;
        outgoing := outgoing co ++ [PutUint16 (Z.of_nat (List.length p)) ++ p];
        writeErr := None |}, (List.length p + 2)%nat, None)
  /\ Uint16 (PutUint16 (Z.of_nat (List.length p)) ++ p) = Z.of_nat (List.length p).
Proof.
  intros Hk Hw Hl. unfold MaxMsgSize in Hl. split.
  - unfold Write.
    assert (Hb : (if Z.of_nat (List.length p) <? 2
                  then (co, O, Some ErrShortBuffer)
                  else if Z.of_nat (List.length p) >? MaxMsgSize
                       then (co, O, Some ErrMessageTooLarge)
                       else conn_Write co (PutUint16 (Z.of_nat (List.length p) mod 65536) ++ p))
                 = conn_Write co (PutUint16 (Z.of_nat (List.length p)) ++ p)).
    { destruct (Z.ltb_spec (Z.of_nat (List.length p)) 2); [lia|].
      unfold MaxMsgSize.
      destruct (Z.gtb_spec (Z.of_nat (List.length p)) 65535); [lia|].
      rewrite Z.mod_small by lia. reflexivity. }
    destruct (kind co) eqn:Ek; [| |congruence]; rewrite Hb; unfold conn_Write;
      rewrite Hw, Ek; simpl; rewrite Nat.add_comm; reflexivity.
  - apply Uint16_PutUint16. lia.
Qed.

(** X2.  The framed write refuses a payload of fewer than two bytes or of more
    than [MaxMsgSize] bytes, and then nothing reaches the connection. *)
Theorem Write_stream_rejects co p :
  kind co <> UDPConn ->
  ((List.length p < 2)%nat -> Write co p = (co, O, Some ErrShortBuffer))
  /\ (MaxMsgSize < Z.of_nat (List.length p) -> Write co p = (co, O, Some ErrMessageTooLarge)).
Proof.
  intros Hk. unfold Write, MaxMsgSize. split; intros Hl.
  - destruct (Z.ltb_spec (Z.of_nat (List.length p)) 2); [|lia].
    destruct (kind co); [reflexivity | reflexivity | contradiction].
  - destruct (Z.ltb_spec (Z.of_nat (List.length p)) 2); [lia|].
    destruct (Z.gtb_spec (Z.of_nat (List.length p)) 65535); [|lia].
    destruct (kind co); [reflexivity | reflexivity | contradiction].
Qed.

Lemma with_incoming_kind t evs : kind (with_incoming t evs) = kind t.
Proof. reflexivity. Qed.

(** One read of a chunk of at least two bytes yields the length prefix. *)
Lemma tcpMsgLen_ok t c0 rest :
  kind t <> UDPConn ->
  incoming t = Data c0 :: rest ->
  (2 <= List.length c0)%nat ->
  Uint16 c0 <> 0 ->
  exists t1,
    tcpMsgLen t = (t1, Z.to_nat (Uint16 c0), None)
    /\ kind t1 = kind t
    /\ (List.length (incoming t1) <= List.length (incoming t))%nat
    /\ stream (incoming t1) = drop 2 (stream (incoming t)).
Proof.
  intros Hk Hin Hl Hz.
  destruct c0 as [|b0 [|b1 c0]]; simpl in Hl; try lia.
  apply Z.eqb_neq in Hz.
  unfold tcpMsgLen, conn_Read. rewrite Hin.
  destruct c0 as [|b2 c0].
  - exists (with_incoming t rest).
    simpl in Hz.
    destruct (kind t) eqn:Ek; try congruence; simpl; rewrite Hz;
      (split; [reflexivity | split; [exact Ek | split; [simpl; lia | reflexivity]]]).
  - exists (with_incoming t (Data (b2 :: c0) :: rest)).
    simpl in Hz.
    destruct (kind t) eqn:Ek; try congruence; simpl; rewrite Hz;
      (split; [reflexivity | split; [exact Ek | split; [simpl; lia | reflexivity]]]).
Qed.


Lemma tcpRead_fills fuel t p :
  kind t <> UDPConn ->
  p <> [] ->
  (List.length (incoming t) <= fuel)%nat ->
  (List.length p <= List.length (stream (incoming t)))%nat ->
  exists t',
    tcpRead fuel t p
    = Some (t', take (List.length p) (stream (incoming t)), List.length p, None)
    /\ kind t' = kind t
    /\ stream (incoming t') = drop (List.length p) (stream (incoming t)).
Proof.
  intros Hk Hp Hf Hs.
  rewrite tcpRead_as_loop by assumption.
  destruct (tcpRead_loop_accumulates (S fuel) t p 0 Hk) as (t' & Ht' & Hk' & Hs'); try lia.
  rewrite Nat.sub_0_r in Ht', Hs'. simpl in Ht'. eauto.
Qed.

Lemma carries_prefix t p tail :
  carries t p tail ->
  exists t1,
    tcpMsgLen t = (t1, List.length p, None)
    /\ kind t1 = kind t
    /\ (List.length (incoming t1) <= List.length (incoming t))%nat
    /\ stream (incoming t1) = p ++ tail.
Proof.
  intros (Hk & (c0 & rest & Hin & Hl) & Hs & Hp). unfold MaxMsgSize in Hp.
  assert (Hu : Uint16 c0 = Z.of_nat (List.length p)).
  { rewrite Hin in Hs. simpl in Hs.
    destruct c0 as [|b0 [|b1 c0]]; simpl in Hl; try lia.
    simpl in Hs. injection Hs as -> -> _.
    apply (Uint16_PutUint16 _ c0). lia. }
  destruct (tcpMsgLen_ok t c0 rest Hk Hin Hl) as (t1 & H1 & H2 & H3 & H4); [lia|].
  exists t1. rewrite H1, Hu, Nat2Z.id, H4, Hs. auto.
Qed.

Lemma readMsgHeader_carried fuel t p tail udpsize :
  carries t p tail ->
  (List.length (incoming t) <= fuel)%nat ->
  exists t',
    readMsgHeader fuel t udpsize
    = Some (if (List.length p <? 12)%nat then (t', [], Some ErrShortRead) else (t', p, None))
    /\ stream (incoming t') = tail.
Proof.
  intros Hc Hf.
  destruct (carries_prefix t p tail Hc) as (t1 & H1 & Hk1 & Hl1 & Hs1).
  destruct Hc as (Hk & _ & _ & Hp).
  destruct (tcpRead_fills fuel t1 (replicate (List.length p) x00)) as (t2 & H2 & _ & Hs2).
  - congruence.
  - destruct p; simpl in *; [lia | discriminate].
  - lia.
  - rewrite length_replicate, Hs1, length_app. lia.
  - rewrite length_replicate, Hs1 in H2, Hs2.
    rewrite take_app_length in H2. rewrite drop_app_length in Hs2.
    exists t2. split; [|exact Hs2].
    unfold readMsgHeader.
    destruct (kind t) eqn:Ek; try congruence; rewrite H1, H2;
      destruct (List.length p <? 12)%nat; try reflexivity;
      now rewrite take_ge by lia.
Qed.

(** X3.  Stream round trip: the payload of a frame as [Write] sends it, of at
    least twelve bytes, is what [readMsgHeader] returns, however the stream
    splits the frame after its first two bytes; the bytes that follow the
    frame stay in the stream. *)
Theorem stream_frame_round_trip fuel t p tail udpsize :
  carries t p tail ->
  (List.length (incoming t) <= fuel)%nat ->
  (12 <= List.length p)%nat ->
  exists t',
    readMsgHeader fuel t udpsize = Some (t', p, None)
    /\ stream (incoming t') = tail.
Proof.
  intros Hc Hf Hl.
  destruct (readMsgHeader_carried fuel t p tail udpsize Hc Hf) as (t' & H & Hs).
  destruct (Nat.ltb_spec (List.length p) 12); [lia|]. eauto.
Qed.




(** X7.  The receive buffer of a datagram exchange: the size the request
    advertises when that is at least 512, else 512. *)
Theorem datagram_buffer_size m :
  List.length (udpBuffer (ednsSize m MinMsgSize))
  = Z.to_nat (match IsEdns0 m with
              | Some opt => Z.max MinMsgSize (UDPSize opt)
              | None => MinMsgSize
              end).
Proof.
  unfold ednsSize, udpBuffer, MinMsgSize.
  destruct (IsEdns0 m) as [opt|].
  - destruct (Z.geb_spec (UDPSize opt) 512).
    + destruct (Z.gtb_spec (UDPSize opt) 512); rewrite length_replicate; f_equal; lia.
    + destruct (Z.gtb_spec 512 512); [lia|]. rewrite length_replicate. f_equal. lia.
  - destruct (Z.gtb_spec 512 512); [lia|]. now rewrite length_replicate.
Qed.


Lemma tcpRead_loop_fails fuel : forall t p n,
  kind t <> UDPConn ->
  (List.length (incoming t) < fuel)%nat ->
  (n <= List.length p)%nat ->
  (List.length (stream (incoming t)) < List.length p - n)%nat ->
  exists t' p',
    tcpRead_loop fuel t p n
    = Some (t', p', (n + List.length (stream (incoming t)))%nat, Some (failure (incoming t)))
    /\ take (n + List.length (stream (incoming t))) p' = take n p ++ stream (incoming t).
Proof.
  induction fuel as [|fuel IH]; intros t p n Hk Hf Hn Hs; [lia|].
  rewrite tcpRead_loop_eq.
  destruct (Nat.ltb_spec n (List.length p)) as [Hn'|?]; [|lia].
  destruct (incoming t) as [|[bs|e] rest] eqn:Hin.
  - unfold conn_Read. rewrite Hin. exists t, (take n p ++ drop n p). simpl.
    rewrite Nat.add_0_r, app_nil_r. split; [reflexivity|].
    rewrite take_app_le by (rewrite length_take; lia).
    apply take_ge. rewrite length_take. lia.
  - simpl in Hs, Hf. rewrite length_app in Hs.
    rewrite (conn_Read_stream t bs rest _ Hk Hin), length_drop.
    destruct (Nat.ltb_spec (List.length p - n) (List.length bs)); [lia|].
    rewrite Nat.min_l by lia. rewrite (take_ge bs) by lia. rewrite drop_drop.
    assert (Hlen : List.length (take n p ++ bs ++ drop (n + List.length bs) p)
                   = List.length p)
      by (rewrite !length_app, length_take, length_drop; lia).
    destruct (IH (with_incoming t rest) (take n p ++ bs ++ drop (n + List.length bs) p)
                (n + List.length bs)%nat) as (t' & p' & Ht' & Hp').
    + exact Hk.
    + simpl. lia.
    + lia.
    + simpl. lia.
    + simpl in Ht', Hp'. exists t', p'. simpl. rewrite length_app.
      split.
      * rewrite Ht'. now rewrite Nat.add_assoc.
      * replace (n + (List.length bs + List.length (stream rest)))%nat
          with (n + List.length bs + List.length (stream rest))%nat by lia.
        rewrite Hp'. rewrite app_assoc.
        rewrite take_app_length' by (rewrite length_app, length_take; lia).
        now rewrite <- app_assoc.
  - unfold conn_Read. rewrite Hin. exists (with_incoming t rest), (take n p ++ drop n p).
    simpl. rewrite Nat.add_0_r, app_nil_r. split; [reflexivity|].
    rewrite take_app_le by (rewrite length_take; lia).
    apply take_ge. rewrite length_take. lia.
Qed.

Lemma tcpRead_cut fuel t p :
  kind t <> UDPConn ->
  (List.length (incoming t) <= fuel)%nat ->
  (List.length (stream (incoming t)) < List.length p)%nat ->
  exists t' p',
    tcpRead fuel t p
    = Some (t', p', List.length (stream (incoming t)), Some (failure (incoming t)))
    /\ take (List.length (stream (incoming t))) p' = stream (incoming t).
Proof.
  intros Hk Hf Hs.
  rewrite tcpRead_as_loop by (destruct p; simpl in *; [lia | discriminate]).
  destruct (tcpRead_loop_fails (S fuel) t p 0 Hk) as (t' & p' & H & Hp); try lia.
  simpl in H, Hp. eauto.
Qed.

(** X8.  [tcpRead] on a stream that fails or ends before the buffer is full
    returns the number of bytes read so far, which are in the buffer, and
    the error. *)
Theorem tcpRead_stops_at_failure fuel t p :
  kind t <> UDPConn ->
  (List.length (incoming t) <= fuel)%nat ->
  (List.length (stream (incoming t)) < List.length p)%nat ->
  exists t' p',
    tcpRead fuel t p
    = Some (t', p', List.length (stream (incoming t)), Some (failure (incoming t)))
    /\ take (List.length (stream (incoming t))) p' = stream (incoming t).
Proof.
  intros Hk Hf Hs.
  rewrite tcpRead_as_loop by (destruct p; simpl in *; [lia | discriminate]).
  destruct (tcpRead_loop_fails (S fuel) t p 0 Hk) as (t' & p' & H & Hp); try lia.
  simpl in H, Hp. eauto.
Qed.

(** X9.  A frame whose payload is cut short, by a failed read or by the
    end of the stream, does not make [readMsgHeader] return that failure:
    the stream branch loses the error of [tcpRead].  With fewer than twelve
    payload bytes read the result is [ErrShortRead]; otherwise the bytes
    read so far are returned as the message, without an error. *)
Theorem stream_body_cut_short fuel t c0 rest udpsize :
  kind t <> UDPConn ->
  incoming t = Data c0 :: rest ->
  (2 <= List.length c0)%nat ->
  (List.length (incoming t) <= fuel)%nat ->
  (List.length (drop 2 (stream (incoming t))) < Z.to_nat (Uint16 c0))%nat ->
  exists t',
    readMsgHeader fuel t udpsize
    = Some (if (List.length (drop 2 (stream (incoming t))) <? 12)%nat
            then (t', [], Some ErrShortRead)
            else (t', drop 2 (stream (incoming t)), None)).
Proof.
  intros Hk Hin Hl Hf Hs.
  destruct (tcpMsgLen_ok t c0 rest Hk Hin Hl) as (t1 & H1 & Hk1 & Hl1 & Hs1); [lia|].
  destruct (tcpRead_cut fuel t1 (replicate (Z.to_nat (Uint16 c0)) x00))
    as (t2 & p' & H2 & Hp').
  - congruence.
  - lia.
  - rewrite length_replicate, Hs1. exact Hs.
  - rewrite Hs1 in H2, Hp'. exists t2. unfold readMsgHeader.
    destruct (kind t) eqn:Ek; try congruence; rewrite H1, H2;
      destruct (List.length (drop 2 (stream (incoming t))) <? 12)%nat;
      try reflexivity; now rewrite Hp'.
Qed.

End Wire.

Section WireInstances.
Import proxy.

Lemma Write_stream_frames_witness :
  Write (fixtures.streamConn []) (fixtures.replyBytes 1 false)
  = (mkConn TCPConn "198.51.100.1:53" []
       [x00 :: x0c :: fixtures.replyBytes 1 false] None, 14%nat, None).
Proof.
  refine (proj1 (Write_stream_frames (fixtures.streamConn [])
                   (fixtures.replyBytes 1 false) _ eq_refl _)).
  - discriminate.
  - vm_compute. split; discriminate.
Defined.

Lemma Write_stream_rejects_witness :
  Write (fixtures.streamConn []) [x2a] = (fixtures.streamConn [], O, Some ErrShortBuffer)
  /\ Write (fixtures.streamConn []) (replicate (Z.to_nat 65536) x00)
     = (fixtures.streamConn [], O, Some ErrMessageTooLarge).
Proof.
  split.
  - refine (proj1 (Write_stream_rejects (fixtures.streamConn []) [x2a] _) _).
    + discriminate.
    + simpl. lia.
  - refine (proj2 (Write_stream_rejects (fixtures.streamConn [])
                     (replicate (Z.to_nat 65536) x00) _) _).
    + discriminate.
    + rewrite length_replicate, Z2Nat.id by lia. reflexivity.
Defined.

(** The frame of a twelve-byte reply, split inside the payload and followed
    by one more byte. *)
Lemma carries_split_reply :
  carries (fixtures.streamConn
             [Data (x00 :: x0c :: take 3 (fixtures.replyBytes 1 false));
              Data (drop 3 (fixtures.replyBytes 1 false) ++ [xff])])
          (fixtures.replyBytes 1 false) [xff].
Proof.
  split; [discriminate|]. split; [|split].
  - eexists _, _. split; [reflexivity | simpl; lia].
  - reflexivity.
  - vm_compute. split; discriminate.
Defined.


Lemma stream_frame_round_trip_witness :
  exists t',
    readMsgHeader 2
      (fixtures.streamConn
         [Data (x00 :: x0c :: take 3 (fixtures.replyBytes 1 false));
          Data (drop 3 (fixtures.replyBytes 1 false) ++ [xff])]) 512
    = Some (t', fixtures.replyBytes 1 false, None)
    /\ stream (incoming t') = [xff].
Proof.
  refine (stream_frame_round_trip 2 _ _ _ 512 carries_split_reply _ _).
  - simpl. lia.
  - simpl. lia.
Defined.




Lemma tcpRead_stops_at_failure_witness :
  exists t' p',
    tcpRead 2 (fixtures.streamConn [Data [x01]; Fail (ErrOther "reset")]) [x00; x00; x00]
    = Some (t', p', 1%nat, Some (ErrOther "reset"))
    /\ take 1 p' = [x01].
Proof.
  refine (tcpRead_stops_at_failure 2
            (fixtures.streamConn [Data [x01]; Fail (ErrOther "reset")])
            [x00; x00; x00] _ _ _).
  - discriminate.
  - simpl. lia.
  - simpl. lia.
Defined.

(** A frame that announces twelve bytes and ends after one; a frame that
    announces sixteen bytes and ends after twelve. *)
Lemma stream_body_cut_short_witness :
  (exists t',
     readMsgHeader 1 (fixtures.streamConn [Data [x00; x0c; x01]]) 512
     = Some (t', [], Some ErrShortRead))
  /\ (exists t',
        readMsgHeader 1
          (fixtures.streamConn [Data (x00 :: x10 :: fixtures.replyBytes 1 false)]) 512
        = Some (t', fixtures.replyBytes 1 false, None)).
Proof.
  split.
  - refine (stream_body_cut_short 1 (fixtures.streamConn [Data [x00; x0c; x01]])
              [x00; x0c; x01] [] 512 _ eq_refl _ _ _).
    + discriminate.
    + simpl. lia.
    + simpl. lia.
    + vm_compute. lia.
  - refine (stream_body_cut_short 1
              (fixtures.streamConn [Data (x00 :: x10 :: fixtures.replyBytes 1 false)])
              (x00 :: x10 :: fixtures.replyBytes 1 false) [] 512 _ eq_refl _ _ _).
    + discriminate.
    + simpl. lia.
    + simpl. lia.
    + vm_compute. lia.
Defined.

End WireInstances.

(** ** More of the proxy client *)

Section ClientMore.
Import proxy.

Variable Pack : Msg -> list byte * option error.
Variable Unpack : list byte -> Msg * option error.
Variable TypeToString : Z -> option string.
Variable ClassToString : Z -> option string.


(** X10.  What [Client.ServeDNS] returns is either an error without a
    reply, or a reply without an error; the reply is then marked
    compressible. *)
Theorem ServeDNS_reply_or_error fuel c w r u peer g rep err :
  ServeDNS Pack Unpack TypeToString ClassToString fuel c w r u peer
  = Some (dnsserver.Returned (g, rep, err)) ->
  (rep = None /\ err <> None)
  \/ (err = None /\ exists m, rep = Some m /\ Compress m = true).
Proof.
  unfold ServeDNS.
  destruct (Exchange _ _ _ _ _ _ _ _) as [[[[co reply] e]|]|]; try discriminate.
  destruct reply as [m|].
  - destruct (Truncated m).
    + intros H. injection H as _ <- <-. right. split; [reflexivity|]. eauto.
    + destruct e as [e|]; intros H; injection H as _ <- <-.
      * left. split; [reflexivity | discriminate].
      * right. split; [reflexivity|]. eauto.
  - destruct e as [e|]; [|discriminate].
    intros H. injection H as _ <- <-. left. split; [reflexivity | discriminate].
Qed.


(** X12.  A request that cannot be packed, or whose write fails, is
    answered with that error and no reply, whatever the fuel: the exchange
    stops before it reads. *)
Theorem write_failure_is_returned fuel c w r u peer q qs co out e :
  Questions r = q :: qs ->
  group c !! dedupKey TypeToString ClassToString q = None ->
  borrow w u peer = Some co ->
  Pack r = (out, Some e)
  \/ (Pack r = (out, None) /\ writeErr co = Some e) ->
  ServeDNS Pack Unpack TypeToString ClassToString fuel c w r u peer
  = Some (dnsserver.Returned (group c, None, Some e)).
Proof.
  intros Hq Hg Hb H. unfold ServeDNS, Exchange. rewrite Hq, Hg, Hb.
  unfold exchange_on, exchange, WriteMsg.
  destruct H as [Hp | [Hp Hw]]; rewrite Hp.
  - reflexivity.
  - unfold conn_Write. rewrite Hw. reflexivity.
Qed.



End ClientMore.

Section ClientMoreInstances.
Import proxy.

(** A reply with the ID of the request, read from a stream. *)
Lemma ServeDNS_reply_or_error_witness :
  (Some (mkMsg 1 true false true 0 [] None) = None /\ @None error <> None)
  \/ (@None error = None
      /\ exists m, Some (mkMsg 1 true false true 0 [] None) = Some m /\ Compress m = true).
Proof.
  refine (ServeDNS_reply_or_error header.Pack header.Unpack header.TypeToString
            header.ClassToString 10 fixtures.idle fixtures.streamClient
            (fixtures.query 1 "example.org." 1) fixtures.upstream
            (fixtures.sending [Data [x00; x0c]; Data (fixtures.replyBytes 1 false)])
            ∅ (Some (mkMsg 1 true false true 0 [] None)) None _).
  vm_compute. reflexivity.
Defined.


Lemma write_failure_is_returned_witness :
  ServeDNS header.Pack header.Unpack header.TypeToString header.ClassToString 0
    fixtures.idle fixtures.streamClient (fixtures.query 1 "example.org." 1)
    fixtures.upstream fixtures.deaf
  = Some (dnsserver.Returned (∅, None, Some (ErrOther "broken pipe"))).
Proof.
  refine (write_failure_is_returned header.Pack header.Unpack header.TypeToString
            header.ClassToString 0 fixtures.idle fixtures.streamClient
            (fixtures.query 1 "example.org." 1) fixtures.upstream fixtures.deaf
            (mkQuestion "example.org." 1 1) []
            (mkConn TCPConn "198.51.100.1:53" [] [] (Some (ErrOther "broken pipe")))
            (fst (header.Pack (fixtures.query 1 "example.org." 1)))
            (ErrOther "broken pipe") eq_refl eq_refl eq_refl _).
  right. split; reflexivity.
Defined.


End ClientMoreInstances.

(** ** More of the dispatcher *)

Section DispatcherMore.
Import dnsserver.

(** X14.  When no candidate of the query may be served, because none is
    registered or because the query is of type DS, and the root zone is
    registered, the root zone's chain is invoked. *)
Theorem root_catch_all s w r q0 rest h :
  snd (Edns0Version r) = None ->
  Questions r = q0 :: rest ->
  Qtype q0 = TypeDS \/ (forall k, k ∈ candidates (Name q0) -> zones s !! k = None) ->
  zones s !! "."%string = Some h ->
  ServeDNS s w r = Some (recovered r (invoke "." h (mkDispatch w []) r))
  /\ served (fst (recovered r (invoke "." h (mkDispatch w []) r))) = ["."%string].
Proof.
  intros He Hq Hno Hroot. split.
  - unfold ServeDNS. rewrite (ServeDNS_body_walk s w r q0 rest He Hq).
    rewrite walk_miss.
    + unfold lastResort. rewrite Hroot. reflexivity.
    + lia.
    + now rewrite length_replicate.
    + intros o Ho. destruct Hno as [Hds|Hno]; [now left|].
      right. apply Hno. unfold candidates. now apply list_elem_of_fmap_2.
  - now rewrite recovered_served, invoke_served.
Qed.

(** X15.  After the chain of a zone returned, the dispatcher writes an error
    response of its own exactly for the response codes FORMERR, SERVFAIL,
    NOTIMP and REFUSED; for any other code it writes nothing. *)
Theorem dispatcher_writes_unsafe_rcodes key h d r w' rc e :
  stack h (writer d) r = (w', Returned (rc, e)) ->
  invoke key h d r
  = ({| writer :=
          {| proto := proto w'; RemoteAddr := RemoteAddr w';
             sent := sent w' ++ (if decide (rc ∈ [1; 2; 4; 5]) then [SetRcode r rc] else []) |};
        served := served d ++ [key] |}, Returned tt).
Proof.
  intros H. unfold invoke. rewrite H. unfold RcodeNoClientWrite.
  unfold RcodeServerFailure, RcodeRefused, RcodeFormatError, RcodeNotImplemented.
  destruct (Z.eqb_spec rc 2) as [->|H2]; [reflexivity|].
  destruct (Z.eqb_spec rc 5) as [->|H5]; [reflexivity|].
  destruct (Z.eqb_spec rc 1) as [->|H1]; [reflexivity|].
  destruct (Z.eqb_spec rc 4) as [->|H4]; [reflexivity|].
  destruct (decide (rc ∈ [1; 2; 4; 5])) as [Hin|_].
  - exfalso. repeat (apply elem_of_cons in Hin; destruct Hin as [->|Hin]; [congruence|]).
    now apply elem_of_nil in Hin.
  - destruct w'. simpl. rewrite app_nil_r. reflexivity.
Qed.

(** X16.  A request without a question makes the dispatch panic at
    [r.Question[0]]; the client gets SERVFAIL and no chain runs. *)
Theorem empty_question_servfail s w r :
  snd (Edns0Version r) = None ->
  Questions r = [] ->
  ServeDNS s w r
  = Some ({| writer := WriteMsg w (SetRcode r RcodeServerFailure); served := [] |},
          Returned tt).
Proof.
  intros He Hq. unfold ServeDNS, ServeDNS_body.
  destruct (Edns0Version r) as [m [e|]]; [discriminate|]. rewrite Hq. reflexivity.
Qed.


Lemma lower_keeps_dot c : Ascii.eqb (lower c) "." = Ascii.eqb c ".".
Proof. destruct c as [[] [] [] [] [] [] [] []]; reflexivity. Qed.

Lemma lower_keeps_backslash c : Ascii.eqb (lower c) "\" = Ascii.eqb c "\".
Proof. destruct c as [[] [] [] [] [] [] [] []]; reflexivity. Qed.

Lemma lower_not_upper c :
  ((65 <=? N_of_ascii (lower c)) && (N_of_ascii (lower c) <=? 90))%N = false.
Proof. destruct c as [[] [] [] [] [] [] [] []]; reflexivity. Qed.

Lemma NextLabel_loop_lower rest : forall i quote,
  NextLabel_loop (lower <$> rest) i quote = NextLabel_loop rest i quote.
Proof.
  induction rest as [|c rest IH]; intros i quote; [reflexivity|].
  destruct rest as [|c' rest']; [reflexivity|].
  change (NextLabel_loop (lower <$> (c :: c' :: rest')) i quote)
    with (if Ascii.eqb (lower c) "\"
          then NextLabel_loop (lower <$> (c' :: rest')) (S i) (negb quote)
          else if Ascii.eqb (lower c) "."
               then if quote then NextLabel_loop (lower <$> (c' :: rest')) (S i) false
                    else (S i, false)
               else NextLabel_loop (lower <$> (c' :: rest')) (S i) false).
  rewrite lower_keeps_dot, lower_keeps_backslash, !IH. reflexivity.
Qed.

Lemma NextLabel_lower q off : NextLabel (lower <$> q) off = NextLabel q off.
Proof. unfold NextLabel. rewrite <- fmap_drop. apply NextLabel_loop_lower. Qed.

Lemma labels_lower fuel : forall q off, labels fuel (lower <$> q) off = labels fuel q off.
Proof.
  induction fuel as [|fuel IH]; intros q off; simpl; [reflexivity|].
  rewrite NextLabel_lower. destruct (NextLabel q off) as [off' fin].
  destruct fin; [reflexivity|]. now rewrite IH.
Qed.

(** X17.  Two names that are equal once lower-cased have the same candidates:
    the walk looks up the same registry keys for them. *)
Theorem candidates_ignore_case n1 n2 :
  lower <$> list_ascii_of_string n1 = lower <$> list_ascii_of_string n2 ->
  candidates n1 = candidates n2.
Proof.
  intros H. unfold candidates.
  assert (Hl : List.length (list_ascii_of_string n1) = List.length (list_ascii_of_string n2)).
  { apply (f_equal List.length) in H. now rewrite !length_fmap in H. }
  rewrite Hl.
  rewrite <- (labels_lower _ (list_ascii_of_string n1)), H, labels_lower.
  apply list_fmap_ext. intros _ o _. unfold candidate.
  now rewrite !fmap_drop, H.
Qed.

(** X18.  No candidate contains an upper-case letter: a zone registered under a
    key with one is never found by the walk. *)
Theorem candidates_are_lower_case name key c :
  key ∈ candidates name ->
  c ∈ list_ascii_of_string key ->
  ~ (65 <= N_of_ascii c <= 90)%N.
Proof.
  intros Hk Hc. unfold candidates in Hk.
  apply list_elem_of_fmap_1 in Hk. destruct Hk as (o & -> & _).
  unfold candidate in Hc. rewrite list_ascii_of_string_of_list_ascii in Hc.
  apply list_elem_of_fmap_1 in Hc. destruct Hc as (c' & -> & _).
  pose proof (lower_not_upper c') as H.
  intros [H1 H2]. apply N.leb_le in H1, H2. rewrite H1, H2 in H. discriminate.
Qed.


Lemma NextLabel_loop_cons c c' rest i quote :
  NextLabel_loop (c :: c' :: rest) i quote
  = if Ascii.eqb c "\"
    then NextLabel_loop (c' :: rest) (S i) (negb quote)
    else if Ascii.eqb c "."
         then if quote then NextLabel_loop (c' :: rest) (S i) false else (S i, false)
         else NextLabel_loop (c' :: rest) (S i) false.
Proof. reflexivity. Qed.

Lemma NextLabel_loop_shift a rest : forall i quote,
  NextLabel_loop rest (a + i) quote
  = (a + fst (NextLabel_loop rest i quote), snd (NextLabel_loop rest i quote))%nat.
Proof.
  induction rest as [|c rest IH]; intros i quote.
  - simpl. now rewrite Nat.add_succ_r.
  - destruct rest as [|c' rest']; [simpl; now rewrite Nat.add_succ_r|].
    rewrite !NextLabel_loop_cons.
    replace (S (a + i)) with (a + S i)%nat by lia.
    destruct (Ascii.eqb c "\"); [apply IH|].
    destruct (Ascii.eqb c "."); [|apply IH].
    destruct quote; [apply IH|]. simpl. now rewrite Nat.add_succ_r.
Qed.

Lemma NextLabel_app pre r o :
  NextLabel (pre ++ r) (List.length pre + o)
  = (List.length pre + fst (NextLabel r o), snd (NextLabel r o))%nat.
Proof.
  unfold NextLabel. rewrite drop_app_add. apply NextLabel_loop_shift.
Qed.

Lemma labels_app fuel : forall pre r o,
  labels fuel (pre ++ r) (List.length pre + o)
  = (fun x => (List.length pre + x)%nat) <$> labels fuel r o.
Proof.
  induction fuel as [|fuel IH]; intros pre r o; simpl; [reflexivity|].
  rewrite NextLabel_app. destruct (NextLabel r o) as [o' fin]. simpl.
  destruct fin; [reflexivity|]. now rewrite IH.
Qed.

Lemma labels_enough f1 : forall f2 q off,
  (List.length q - off < f1)%nat -> (List.length q - off < f2)%nat ->
  labels f1 q off = labels f2 q off.
Proof.
  induction f1 as [|f1 IH]; intros f2 q off H1 H2; [lia|].
  destruct f2 as [|f2]; [lia|]. simpl.
  destruct (NextLabel q off) as [off' fin] eqn:E.
  destruct fin; [reflexivity|].
  apply NextLabel_bound in E. f_equal. apply IH; lia.
Qed.

(** A label without dots and backslashes, followed by a dot and more: the
    next label starts right after the dot. *)
Lemma NextLabel_loop_label l : forall c r i,
  (forall x, x ∈ l -> Ascii.eqb x "." = false /\ Ascii.eqb x "\" = false) ->
  NextLabel_loop (l ++ "."%char :: c :: r) i false = (i + List.length l + 1, false)%nat.
Proof.
  induction l as [|x l IH]; intros c r i Hl.
  - simpl. f_equal. lia.
  - destruct (Hl x) as [Hd Hb]; [apply elem_of_cons; now left|].
    change ((x :: l) ++ "."%char :: c :: r) with (x :: (l ++ "."%char :: c :: r)).
    destruct (l ++ "."%char :: c :: r) as [|y rest] eqn:E; [now destruct l|].
    rewrite NextLabel_loop_cons, Hb, Hd, <- E.
    rewrite IH by (intros z Hz; apply Hl; apply elem_of_cons; now right).
    simpl. f_equal. lia.
Qed.

(** The same label followed by a single last byte ends the walk. *)
Lemma NextLabel_loop_last l : forall c i,
  (forall x, x ∈ l -> Ascii.eqb x "." = false /\ Ascii.eqb x "\" = false) ->
  snd (NextLabel_loop (l ++ [c]) i false) = true.
Proof.
  induction l as [|x l IH]; intros c i Hl; [reflexivity|].
  destruct (Hl x) as [Hd Hb]; [apply elem_of_cons; now left|].
  change ((x :: l) ++ [c]) with (x :: (l ++ [c])).
  destruct (l ++ [c]) as [|y rest] eqn:E; [now destruct l|].
  rewrite NextLabel_loop_cons, Hb, Hd, <- E.
  apply IH. intros z Hz. apply Hl. apply elem_of_cons. now right.
Qed.

Lemma list_ascii_of_string_app (a b : string) :
  list_ascii_of_string (a ++ b) = list_ascii_of_string a ++ list_ascii_of_string b.
Proof. induction a as [|c a IH]; simpl; [reflexivity | now rewrite IH]. Qed.

Lemma candidates_cons_label (label rest : string) :
  plain label ->
  rest <> EmptyString ->
  candidates (label ++ "." ++ rest)
  = string_of_list_ascii (lower <$> list_ascii_of_string (label ++ "." ++ rest))
    :: candidates rest.
Proof.
  intros Hl Hr. unfold candidates.
  rewrite !list_ascii_of_string_app.
  set (l := list_ascii_of_string label). set (r := list_ascii_of_string rest).
  change (list_ascii_of_string ".") with ["."%char].
  assert (Hr' : exists c r', r = c :: r').
  { subst r. destruct rest; [contradiction|]. simpl. eauto. }
  destruct Hr' as (c & r' & Er).
  cbn [labels]. unfold NextLabel at 1. rewrite drop_0.
  change (l ++ ["."%char] ++ r) with (l ++ "."%char :: r). rewrite Er.
  rewrite NextLabel_loop_label by exact Hl. rewrite <- Er.
  rewrite fmap_cons. f_equal.
  replace (l ++ "."%char :: r) with ((l ++ ["."%char]) ++ r) by now rewrite <- app_assoc.
  replace (0 + List.length l + 1)%nat with (List.length (l ++ ["."%char]) + 0)%nat
    by (rewrite length_app; simpl; lia).
  rewrite labels_app, <- list_fmap_compose.
  rewrite (labels_enough _ (S (List.length r)))
    by (rewrite ?length_app; simpl; lia).
  apply list_fmap_ext. intros _ o _. simpl. unfold candidate.
  now rewrite drop_app_add.
Qed.

(** X20.  A name of a single label has itself, lower-cased, as its only
    candidate: the walk never looks up the root for it. *)
Theorem candidates_single_label (label : string) (c : ascii) :
  plain label ->
  candidates (label ++ String c EmptyString)
  = [string_of_list_ascii (lower <$> list_ascii_of_string (label ++ String c EmptyString))].
Proof.
  intros Hl. unfold candidates.
  rewrite !list_ascii_of_string_app.
  change (list_ascii_of_string (String c EmptyString)) with [c].
  cbn [labels]. unfold NextLabel. rewrite drop_0.
  pose proof (NextLabel_loop_last (list_ascii_of_string label) c 0%nat Hl) as H.
  destruct (NextLabel_loop _ _ _) as [o fin]. simpl in H. subst fin.
  reflexivity.
Qed.


(** X19.  The candidates of [label.rest] are the lower-cased name itself and
    then the candidates of [rest]: the walk drops one label at a time. *)
Theorem candidates_of_subdomain (label rest : string) :
  plain label ->
  rest <> EmptyString ->
  candidates (label ++ "." ++ rest) = lowered (label ++ "." ++ rest) :: candidates rest.
Proof. exact (candidates_cons_label label rest). Qed.

Lemma candidates_head name : exists tl, candidates name = lowered name :: tl.
Proof.
  unfold candidates. cbn [labels]. rewrite fmap_cons. eexists. f_equal.
Qed.

Lemma ServeDNS_first_candidate s w r q0 rest pre key post h :
  snd (Edns0Version r) = None ->
  Questions r = q0 :: rest ->
  Qtype q0 <> TypeDS ->
  candidates (Name q0) = pre ++ key :: post ->
  (forall k, k ∈ pre -> zones s !! k = None) ->
  zones s !! key = Some h ->
  ServeDNS s w r = Some (recovered r (invoke key h (mkDispatch w []) r)).
Proof.
  intros He Hq Hds Hc Hpre Hh.
  unfold candidates in Hc.
  apply fmap_app_inv in Hc. destruct Hc as (lpre & l2 & -> & Hc & Hl).
  symmetry in Hc. apply fmap_cons_inv in Hc. destruct Hc as (o & lpost & -> & -> & ->).
  unfold ServeDNS. rewrite (ServeDNS_body_walk s w r q0 rest He Hq).
  erewrite walk_hit; eauto.
  - now rewrite length_replicate.
  - intros o' Ho'. apply Hpre. now apply list_elem_of_fmap_2.
Qed.

(** X21.  A query that is not of type DS and whose lower-cased name is a
    registered key is served by that zone, whatever else is registered. *)
Theorem exact_match_served s w r q0 rest h :
  snd (Edns0Version r) = None ->
  Questions r = q0 :: rest ->
  Qtype q0 <> TypeDS ->
  zones s !! lowered (Name q0) = Some h ->
  ServeDNS s w r = Some (recovered r (invoke (lowered (Name q0)) h (mkDispatch w []) r)).
Proof.
  intros He Hq Hds Hh.
  destruct (candidates_head (Name q0)) as [tl Hc].
  apply (ServeDNS_first_candidate s w r q0 rest [] (lowered (Name q0)) tl h); auto.
  intros k Hk. now apply elem_of_nil in Hk.
Qed.

(** X22.  A query, not of type DS, for a name one label below a registered
    zone is served by that zone when the name itself is not registered. *)
Theorem subdomain_served_by_zone s w r q0 rest label zn h :
  snd (Edns0Version r) = None ->
  Questions r = q0 :: rest ->
  Qtype q0 <> TypeDS ->
  Name q0 = (label ++ "." ++ zn)%string ->
  plain label ->
  zn <> EmptyString ->
  zones s !! lowered (Name q0) = None ->
  zones s !! lowered zn = Some h ->
  ServeDNS s w r = Some (recovered r (invoke (lowered zn) h (mkDispatch w []) r)).
Proof.
  intros He Hq Hds Hn Hl Hz Hnone Hh.
  destruct (candidates_head zn) as [tl Hc].
  apply (ServeDNS_first_candidate s w r q0 rest [lowered (Name q0)] (lowered zn) tl h); auto.
  - rewrite Hn, candidates_cons_label, Hc by assumption. reflexivity.
  - intros k Hk. apply elem_of_cons in Hk. destruct Hk as [->|Hk]; [exact Hnone|].
    now apply elem_of_nil in Hk.
Qed.

End DispatcherMore.

(** ** Construction of the registry *)

Section ConstructionProps.
Import dnsserver.

Variable buildStack : Config -> Handler.
Variable hasChaos : Config -> bool.

Lemma aliases_lookup z names : forall (zs : gmap string zone) k,
  foldl (fun m ch => <[ch := z]> m) zs names !! k
  = if decide (k ∈ names) then Some z else zs !! k.
Proof.
  induction names as [|n names IH]; intros zs k; simpl.
  - destruct (decide (k ∈ [])) as [H|_]; [now apply elem_of_nil in H | reflexivity].
  - rewrite IH. destruct (decide (k ∈ names)) as [Hin|Hnin].
    + destruct (decide (k ∈ n :: names)) as [_|Hn]; [reflexivity|].
      exfalso. apply Hn. apply elem_of_cons. now right.
    + destruct (decide (k = n)) as [->|Hne].
      * rewrite lookup_insert_eq.
        destruct (decide (n ∈ n :: names)) as [_|Hn]; [reflexivity|].
        exfalso. apply Hn. apply elem_of_cons. now left.
      * rewrite lookup_insert_ne by congruence.
        destruct (decide (k ∈ n :: names)) as [Hin|_]; [|reflexivity].
        apply elem_of_cons in Hin. destruct Hin; contradiction.
Qed.

Lemma register_lookup conf (zs : gmap string zone) k :
  register buildStack hasChaos conf zs !! k
  = if decide (k = Host conf \/ (hasChaos conf = true /\ k ∈ chaosNames))
    then Some (zoneFor buildStack conf)
    else zs !! k.
Proof.
  unfold register. destruct (hasChaos conf).
  - rewrite aliases_lookup.
    destruct (decide (k ∈ chaosNames)) as [Hin|Hnin].
    + destruct (decide _) as [_|Hn]; [reflexivity|]. exfalso. apply Hn. auto.
    + destruct (decide (k = Host conf)) as [->|Hne].
      * rewrite lookup_insert_eq.
        destruct (decide _) as [_|Hn]; [reflexivity|]. exfalso. apply Hn. auto.
      * rewrite lookup_insert_ne by congruence.
        destruct (decide _) as [[?|[_ ?]]|_]; [contradiction | contradiction | reflexivity].
  - destruct (decide (k = Host conf)) as [->|Hne].
    + rewrite lookup_insert_eq.
      destruct (decide _) as [_|Hn]; [reflexivity|]. exfalso. apply Hn. auto.
    + rewrite lookup_insert_ne by congruence.
      destruct (decide _) as [[?|[? _]]|_]; [contradiction | discriminate | reflexivity].
Qed.

Lemma register_keeps conf (zs : gmap string zone) k :
  is_Some (zs !! k) -> is_Some (register buildStack hasChaos conf zs !! k).
Proof. intros H. rewrite register_lookup. destruct (decide _); eauto. Qed.

Lemma register_has_host conf (zs : gmap string zone) :
  is_Some (register buildStack hasChaos conf zs !! Host conf).
Proof.
  rewrite register_lookup. destruct (decide _) as [_|Hn]; [eauto|].
  exfalso. apply Hn. now left.
Qed.

(** A key that is taken stays taken, so a later configuration for it is
    refused. *)
Lemma New_loop_taken addr configs : forall zs conf,
  conf ∈ configs ->
  is_Some (zs !! Host conf) ->
  exists e, New_loop buildStack hasChaos addr configs zs = inl e.
Proof.
  induction configs as [|c configs IH]; intros zs conf Hin Hk.
  - now apply elem_of_nil in Hin.
  - simpl. destruct (zs !! Host c) eqn:E; [eauto|].
    apply elem_of_cons in Hin. destruct Hin as [->|Hin].
    + rewrite E in Hk. destruct Hk; discriminate.
    + apply (IH _ conf Hin). now apply register_keeps.
Qed.

Lemma New_loop_app addr pre : forall rest zs,
  New_loop buildStack hasChaos addr (pre ++ rest) zs
  = match New_loop buildStack hasChaos addr pre zs with
    | inl e => inl e
    | inr zs' => New_loop buildStack hasChaos addr rest zs'
    end.
Proof.
  induction pre as [|p pre IH]; intros rest zs; simpl; [reflexivity|].
  destruct (zs !! Host p); [reflexivity | apply IH].
Qed.

(** X23.  Two configurations for the same host make the construction fail. *)
Theorem New_rejects_duplicate_hosts addr pre c1 mid c2 post :
  Host c1 = Host c2 ->
  exists e, New buildStack hasChaos addr (pre ++ c1 :: mid ++ c2 :: post) = inl e.
Proof.
  intros Hh. unfold New. rewrite New_loop_app.
  destruct (New_loop buildStack hasChaos addr pre ∅) as [e|zs]; [eauto|].
  assert (H : exists e, New_loop buildStack hasChaos addr (c1 :: mid ++ c2 :: post) zs = inl e).
  { simpl. destruct (zs !! Host c1); [eauto|].
    apply (New_loop_taken addr _ _ c2).
    - apply elem_of_app. right. apply elem_of_cons. now left.
    - rewrite <- Hh. apply register_has_host. }
  destruct H as [e ->]. eauto.
Qed.

Lemma New_loop_distinct addr configs : forall zs,
  (forall c, c ∈ configs -> hasChaos c = false) ->
  NoDup (Host <$> configs) ->
  (forall c, c ∈ configs -> zs !! Host c = None) ->
  exists zs',
    New_loop buildStack hasChaos addr configs zs = inr zs'
    /\ (forall c, c ∈ configs -> zs' !! Host c = Some (zoneFor buildStack c))
    /\ (forall k, k ∉ Host <$> configs -> zs' !! k = zs !! k).
Proof.
  induction configs as [|conf configs IH]; intros zs Hch Hnd Hfree.
  - exists zs. split; [reflexivity|]. split; [|reflexivity].
    intros c Hc. now apply elem_of_nil in Hc.
  - simpl. rewrite (Hfree conf) by (apply elem_of_cons; now left).
    rewrite fmap_cons in Hnd. apply NoDup_cons in Hnd. destruct Hnd as [Hnin Hnd].
    assert (Hreg : forall k, register buildStack hasChaos conf zs !! k
                             = if decide (k = Host conf) then Some (zoneFor buildStack conf)
                               else zs !! k).
    { intros k. rewrite register_lookup.
      rewrite (Hch conf) by (apply elem_of_cons; now left).
      destruct (decide (k = Host conf)) as [->|Hne].
      - destruct (decide _) as [_|Hn]; [reflexivity|]. exfalso. apply Hn. now left.
      - destruct (decide _) as [[?|[? _]]|_]; [contradiction | discriminate | reflexivity]. }
    destruct (IH (register buildStack hasChaos conf zs)) as (zs' & H1 & H2 & H3).
    + intros c Hc. apply Hch. apply elem_of_cons. now right.
    + exact Hnd.
    + intros c Hc. rewrite Hreg.
      destruct (decide (Host c = Host conf)) as [Heq|_].
      * exfalso. apply Hnin. rewrite <- Heq. now apply list_elem_of_fmap_2.
      * apply Hfree. apply elem_of_cons. now right.
    + exists zs'. split; [exact H1|]. split.
      * intros c Hc. apply elem_of_cons in Hc. destruct Hc as [->|Hc]; [|now apply H2].
        rewrite H3 by exact Hnin. rewrite Hreg.
        destruct (decide _); [reflexivity | contradiction].
      * intros k Hk.
        assert (Hk' : k <> Host conf /\ k ∉ Host <$> configs).
        { split; intros X; apply Hk; apply elem_of_cons; auto. }
        destruct Hk' as [Hne Hk'].
        rewrite H3 by exact Hk'. rewrite Hreg.
        destruct (decide (k = Host conf)); [contradiction | reflexivity].
Qed.

(** X24.  Configurations with distinct hosts and no chaos middleware build a
    server bound to the address whose registry holds, for each host, the
    zone of its configuration, and nothing else. *)
Theorem New_registers_hosts addr configs :
  (forall c, c ∈ configs -> hasChaos c = false) ->
  NoDup (Host <$> configs) ->
  exists s,
    New buildStack hasChaos addr configs = inr s
    /\ Addr s = addr
    /\ (forall c, c ∈ configs -> zones s !! Host c = Some (zoneFor buildStack c))
    /\ (forall k, k ∉ Host <$> configs -> zones s !! k = None).
Proof.
  intros Hch Hnd.
  destruct (New_loop_distinct addr configs ∅ Hch Hnd) as (zs & H1 & H2 & H3).
  - intros c _. apply lookup_empty.
  - unfold New. rewrite H1. eexists. split; [reflexivity|]. split; [reflexivity|].
    split; [exact H2|]. intros k Hk. simpl. rewrite H3 by exact Hk. apply lookup_empty.
Qed.

(** X25.  When the last configuration has the chaos middleware and the
    construction succeeds, the five chaos names and the host all lead to
    its zone, whatever was registered under those names before. *)
Theorem New_chaos_aliases addr pre c s :
  hasChaos c = true ->
  New buildStack hasChaos addr (pre ++ [c]) = inr s ->
  forall k, k = Host c \/ k ∈ chaosNames -> zones s !! k = Some (zoneFor buildStack c).
Proof.
  intros Hc HN k Hk. unfold New in HN. rewrite New_loop_app in HN.
  destruct (New_loop buildStack hasChaos addr pre ∅) as [e|zs]; [discriminate|].
  simpl in HN. destruct (zs !! Host c); [discriminate|].
  injection HN as <-. simpl. rewrite register_lookup.
  destruct (decide _) as [_|Hn]; [reflexivity|].
  exfalso. apply Hn. destruct Hk; auto.
Qed.


(** X26.  A server built from configurations with distinct hosts and no chaos
    middleware serves a query, not of type DS, whose lower-cased name is
    one of the hosts with the chain of that host's configuration. *)
Theorem built_server_serves_host addr configs s c w r q0 rest :
  (forall c, c ∈ configs -> hasChaos c = false) ->
  NoDup (Host <$> configs) ->
  New buildStack hasChaos addr configs = inr s ->
  c ∈ configs ->
  snd (Edns0Version r) = None ->
  Questions r = q0 :: rest ->
  Qtype q0 <> TypeDS ->
  lowered (Name q0) = Host c ->
  ServeDNS s w r
  = Some (recovered r (invoke (Host c) (zoneFor buildStack c) (mkDispatch w []) r)).
Proof.
  intros Hch Hnd HN Hc He Hq Hds Hn.
  destruct (New_loop_distinct addr configs ∅ Hch Hnd) as (zs & H1 & H2 & _).
  - intros c' _. apply lookup_empty.
  - unfold New in HN. rewrite H1 in HN. injection HN as <-.
    destruct (candidates_head (Name q0)) as [tl Hcs]. rewrite Hn in Hcs.
    apply (ServeDNS_first_candidate _ w r q0 rest [] (Host c) tl); auto.
    all: try (intros k Hk; now apply elem_of_nil in Hk).
    all: try (simpl; now apply H2).
Qed.

End ConstructionProps.

Section MoreInstances.
Import dnsserver.

Lemma plain_www : plain "www".
Proof.
  intros x Hx. simpl in Hx.
  repeat (apply elem_of_cons in Hx; destruct Hx as [->|Hx]; [split; reflexivity|]).
  now apply elem_of_nil in Hx.
Defined.

Lemma plain_org : plain "org".
Proof.
  intros x Hx. simpl in Hx.
  repeat (apply elem_of_cons in Hx; destruct Hx as [->|Hx]; [split; reflexivity|]).
  now apply elem_of_nil in Hx.
Defined.

Lemma root_catch_all_witness :
  ServeDNS fixtures.zoneAndRoot fixtures.client (fixtures.query 7 "other.net." 1)
  = Some (recovered (fixtures.query 7 "other.net." 1)
            (invoke "." fixtures.rootZone (mkDispatch fixtures.client [])
               (fixtures.query 7 "other.net." 1))).
Proof.
  refine (proj1 (root_catch_all fixtures.zoneAndRoot fixtures.client
                   (fixtures.query 7 "other.net." 1) (mkQuestion "other.net." 1 1) []
                   fixtures.rootZone eq_refl eq_refl _ _)).
  - right. intros k Hk. vm_compute in Hk.
    repeat (apply elem_of_cons in Hk; destruct Hk as [->|Hk]; [vm_compute; reflexivity|]).
    now apply elem_of_nil in Hk.
  - vm_compute. reflexivity.
Defined.

(** A chain that answers REFUSED itself: the client is written to twice. *)
Lemma dispatcher_writes_unsafe_rcodes_witness :
  sent (writer (fst (invoke "example.org." fixtures.refusingZone
                       (mkDispatch fixtures.client [])
                       (fixtures.query 7 "example.org." 1))))
  = [SetRcode (fixtures.query 7 "example.org." 1) 5;
     SetRcode (fixtures.query 7 "example.org." 1) 5].
Proof.
  rewrite (dispatcher_writes_unsafe_rcodes "example.org." fixtures.refusingZone
             (mkDispatch fixtures.client []) (fixtures.query 7 "example.org." 1)
             (WriteMsg fixtures.client (SetRcode (fixtures.query 7 "example.org." 1) 5))
             5 None eq_refl).
  reflexivity.
Defined.

Lemma empty_question_servfail_witness :
  ServeDNS fixtures.twoZones fixtures.client (mkMsg 7 false false false 0 [] None)
  = Some ({| writer := WriteMsg fixtures.client
                         (SetRcode (mkMsg 7 false false false 0 [] None) RcodeServerFailure);
             served := [] |}, Returned tt).
Proof.
  exact (empty_question_servfail fixtures.twoZones fixtures.client
           (mkMsg 7 false false false 0 [] None) eq_refl eq_refl).
Defined.

Lemma candidates_ignore_case_witness :
  candidates "WWW.Example.ORG." = candidates "www.example.org.".
Proof.
  apply candidates_ignore_case. vm_compute. reflexivity.
Defined.

Lemma candidates_are_lower_case_witness :
  ~ (65 <= N_of_ascii "e" <= 90)%N.
Proof.
  apply (candidates_are_lower_case "www.Example.org." "example.org." "e").
  - vm_compute. apply elem_of_cons. right. apply elem_of_cons. now left.
  - vm_compute. apply elem_of_cons. now left.
Defined.

Lemma candidates_of_subdomain_witness :
  candidates "www.Example.org." = lowered "www.Example.org." :: candidates "Example.org.".
Proof.
  apply (candidates_of_subdomain "www" "Example.org.").
  - exact plain_www.
  - discriminate.
Defined.

Lemma candidates_single_label_witness :
  candidates "org." = ["org."%string].
Proof.
  exact (candidates_single_label "org" "." plain_org).
Defined.

Lemma exact_match_served_witness :
  ServeDNS fixtures.twoZones fixtures.client (fixtures.query 7 "A.B.Example.Org." 1)
  = Some (recovered (fixtures.query 7 "A.B.Example.Org." 1)
            (invoke "a.b.example.org." fixtures.subZone (mkDispatch fixtures.client [])
               (fixtures.query 7 "A.B.Example.Org." 1))).
Proof.
  refine (exact_match_served fixtures.twoZones fixtures.client
            (fixtures.query 7 "A.B.Example.Org." 1) (mkQuestion "A.B.Example.Org." 1 1) []
            fixtures.subZone eq_refl eq_refl _ _).
  - vm_compute. discriminate.
  - vm_compute. reflexivity.
Defined.

Lemma subdomain_served_by_zone_witness :
  ServeDNS fixtures.twoZones fixtures.client (fixtures.query 7 "www.Example.org." 1)
  = Some (recovered (fixtures.query 7 "www.Example.org." 1)
            (invoke "example.org." fixtures.parentZone (mkDispatch fixtures.client [])
               (fixtures.query 7 "www.Example.org." 1))).
Proof.
  refine (subdomain_served_by_zone fixtures.twoZones fixtures.client
            (fixtures.query 7 "www.Example.org." 1) (mkQuestion "www.Example.org." 1 1) []
            "www" "Example.org." fixtures.parentZone eq_refl eq_refl _ eq_refl plain_www _ _ _).
  - vm_compute. discriminate.
  - discriminate.
  - vm_compute. reflexivity.
  - vm_compute. reflexivity.
Defined.

Lemma New_rejects_duplicate_hosts_witness :
  exists e,
    New fixtures.plainStack fixtures.noChaos ":53"
      [mkConfig "example.org." "53"; mkConfig "example.org." "5353"] = inl e.
Proof.
  exact (New_rejects_duplicate_hosts fixtures.plainStack fixtures.noChaos ":53" []
           (mkConfig "example.org." "53") [] (mkConfig "example.org." "5353") [] eq_refl).
Defined.

Lemma distinct_hosts :
  NoDup (Host <$> [mkConfig "example.org." "53"; mkConfig "example.net." "53"]).
Proof.
  simpl. apply NoDup_cons. split.
  - intros H. apply elem_of_cons in H. destruct H as [H|H]; [discriminate|].
    now apply elem_of_nil in H.
  - apply NoDup_cons. split; [intros H; now apply elem_of_nil in H | apply NoDup_nil_2].
Defined.

Lemma New_registers_hosts_witness :
  exists s,
    New fixtures.plainStack fixtures.noChaos ":53"
      [mkConfig "example.org." "53"; mkConfig "example.net." "53"] = inr s
    /\ Addr s = ":53"%string
    /\ (forall c, c ∈ [mkConfig "example.org." "53"; mkConfig "example.net." "53"] ->
                  zones s !! Host c = Some (zoneFor fixtures.plainStack c))
    /\ (forall k, k ∉ Host <$> [mkConfig "example.org." "53"; mkConfig "example.net." "53"] ->
                  zones s !! k = None).
Proof.
  apply (New_registers_hosts fixtures.plainStack fixtures.noChaos ":53").
  - reflexivity.
  - exact distinct_hosts.
Defined.

(** A zone registered as [version.bind.] and then the root zone with the
    chaos middleware: the construction succeeds and [version.bind.] leads
    to the root's zone. *)
Lemma New_chaos_aliases_witness :
  exists s,
    New fixtures.plainStack fixtures.rootHasChaos ":53"
      [mkConfig "version.bind." "53"; mkConfig "." "53"] = inr s
    /\ zones s !! "version.bind."%string
       = Some (zoneFor fixtures.plainStack (mkConfig "." "53")).
Proof.
  destruct (New fixtures.plainStack fixtures.rootHasChaos ":53"
              [mkConfig "version.bind." "53"; mkConfig "." "53"]) as [e|s] eqn:E.
  - vm_compute in E. discriminate.
  - exists s. split; [reflexivity|].
    apply (New_chaos_aliases fixtures.plainStack fixtures.rootHasChaos ":53"
             [mkConfig "version.bind." "53"] (mkConfig "." "53") s eq_refl E).
    right. apply elem_of_cons. right. apply elem_of_cons. now left.
Defined.

Lemma built_server_serves_host_witness :
  exists s,
    New fixtures.plainStack fixtures.noChaos ":53"
      [mkConfig "example.org." "53"; mkConfig "example.net." "53"] = inr s
    /\ ServeDNS s fixtures.client (fixtures.query 7 "Example.NET." 1)
       = Some (recovered (fixtures.query 7 "Example.NET." 1)
                 (invoke "example.net."
                    (zoneFor fixtures.plainStack (mkConfig "example.net." "53"))
                    (mkDispatch fixtures.client []) (fixtures.query 7 "Example.NET." 1))).
Proof.
  destruct (New fixtures.plainStack fixtures.noChaos ":53"
              [mkConfig "example.org." "53"; mkConfig "example.net." "53"]) as [e|s] eqn:E.
  - vm_compute in E. discriminate.
  - exists s. split; [reflexivity|].
    refine (built_server_serves_host fixtures.plainStack fixtures.noChaos ":53"
              [mkConfig "example.org." "53"; mkConfig "example.net." "53"] s
              (mkConfig "example.net." "53") fixtures.client
              (fixtures.query 7 "Example.NET." 1) (mkQuestion "Example.NET." 1 1) []
              _ distinct_hosts E _ eq_refl eq_refl _ eq_refl).
    + reflexivity.
    + apply elem_of_cons. right. apply elem_of_cons. now left.
    + vm_compute. discriminate.
Defined.

End MoreInstances.
